(** * Niikaa: the article editor core, embedded in Rocq

  A shallow embedding of the parts of [src/App.tsx],
  [src/services/geminiService.ts] and the [MarkdownView] component that
  carry the streaming assembler, the image set, the cursor-aware
  insertion, the retry policy and the lightweight markdown renderer,
  and of the handlers around them: article settings, categories, saved
  articles, image insertion and editing, export file names.

  Conventions.
  - A JavaScript string is a sequence of code units.  It is modelled by
    the Standard Library's [string]; a code unit is an [ascii], so the
    model covers the code units below 256.
  - A JavaScript number that holds an index, a count or a time stamp is
    a [Z].
  - React state is explicit: a handler is a function from the state it
    closes over to the state after its setters have run.
  - An awaited call to the generation service is an oracle argument that
    lists what the service answers. *)

From Stdlib Require Import ZArith List Bool Lia.
From Stdlib Require Import Strings.Ascii Strings.String.
From stdpp Require Import base list.
Import ListNotations.

Local Open Scope string_scope.
Local Open Scope Z_scope.

(** ** JavaScript string primitives *)

Module Js.

(** [s.length] *)
Definition len (s : string) : Z := Z.of_nat (String.length s).

Fixpoint take (n : nat) (s : string) : string :=
  match n, s with
  | S n', String c s' => String c (take n' s')
  | _, _ => EmptyString
  end.

Fixpoint drop (n : nat) (s : string) : string :=
  match n, s with
  | S n', String _ s' => drop n' s'
  | _, _ => s
  end.

(** The clamping [String.prototype.substring] applies to each argument:
    below [0] becomes [0], above the length becomes the length. *)
Definition clamp (s : string) (i : Z) : Z := Z.min (Z.max i 0) (len s).

(** [s.substring(a, b)]: both arguments are clamped and swapped when
    out of order. *)
Definition substring (s : string) (a b : Z) : string :=
  let fa := clamp s a in
  let fb := clamp s b in
  let from := Z.min fa fb in
  let to := Z.max fa fb in
  take (Z.to_nat (to - from)) (drop (Z.to_nat from) s).

(** [s.substring(a)] *)
Definition substring_from (s : string) (a : Z) : string :=
  substring s a (len s).

(** [s.startsWith(p)] *)
Fixpoint startsWith (s p : string) : bool :=
  match p, s with
  | EmptyString, _ => true
  | String a p', String b s' => Ascii.eqb a b && startsWith s' p'
  | String _ _, EmptyString => false
  end.

(** [s.includes(p)] *)
Fixpoint includes (s p : string) : bool :=
  startsWith s p ||
  match s with
  | EmptyString => false
  | String _ s' => includes s' p
  end.

Fixpoint rev_acc (s acc : string) : string :=
  match s with
  | EmptyString => acc
  | String c s' => rev_acc s' (String c acc)
  end.

Definition rev (s : string) : string := rev_acc s EmptyString.

(** [s.endsWith(p)] *)
Definition endsWith (s p : string) : bool := startsWith (rev s) (rev p).

(** White space as [String.prototype.trim] sees it, among the code
    units below 256: TAB, LF, VT, FF, CR, SPACE and NBSP. *)
Definition is_ws (c : ascii) : bool :=
  let n := nat_of_ascii c in
  (Nat.leb 9 n && Nat.leb n 13) || Nat.eqb n 32 || Nat.eqb n 160.

Fixpoint trimStart (s : string) : string :=
  match s with
  | String c s' => if is_ws c then trimStart s' else s
  | EmptyString => EmptyString
  end.

Definition trimEnd (s : string) : string := rev (trimStart (rev s)).

(** [s.trim()] *)
Definition trim (s : string) : string := trimEnd (trimStart s).

(** [s.split(c)] for a one-character separator: the pieces between the
    occurrences of [c]; never empty as a list. *)
Fixpoint split (c : ascii) (s : string) : list string :=
  match s with
  | EmptyString => [EmptyString]
  | String a s' =>
      if Ascii.eqb a c then EmptyString :: split c s'
      else match split c s' with
           | p :: ps => String a p :: ps
           | [] => [String a EmptyString]
           end
  end.

(** [toLowerCase] on one code unit below 256: the letters A to Z, and
    the capital letters from 192 to 222 but the multiplication sign. *)
Definition lower (c : ascii) : ascii :=
  let n := nat_of_ascii c in
  if (Nat.leb 65 n && Nat.leb n 90)
     || (Nat.leb 192 n && Nat.leb n 222 && negb (Nat.eqb n 215))
  then ascii_of_nat (n + 32) else c.

Fixpoint toLowerCase (s : string) : string :=
  match s with
  | EmptyString => EmptyString
  | String c s' => String (lower c) (toLowerCase s')
  end.

(** [s.slice(2, -2)]: the string without its first two and its last two
    code units; empty when fewer than four. *)
Definition slice2 (s : string) : string :=
  let n := String.length s in
  take (n - 2 - 2) (drop 2 s).

(** The line terminators that [.] of a regular expression refuses. *)
Definition is_line_terminator (c : ascii) : bool :=
  let n := nat_of_ascii c in Nat.eqb n 10 || Nat.eqb n 13.

(** [xs[i]] on an array: [undefined] (here [None]) outside the array. *)
Definition index {A} (xs : list A) (i : Z) : option A :=
  if i <? 0 then None else xs !! Z.to_nat i.

(** Truthiness of a string: every string but the empty one. *)
Definition truthy (s : string) : bool :=
  match s with EmptyString => false | String _ _ => true end.

End Js.

(** ** Cursor-aware insertion: [insertText] of [App.tsx] *)

Module Editor.

(** What the handler reads from the text area. *)
Record Textarea := mkTextarea {
  value : string;
  selectionStart : Z;
  selectionEnd : Z
}.

(** What the handler leaves behind: the new content and the range given
    to [setSelectionRange]. *)
Record Inserted := mkInserted {
  newText : string;
  newStart : Z;
  newEnd : Z
}.

(** [insertText(before, after)]; [None] is the early [return] taken when
    the text area reference is null. *)
Definition insertText (textarea : option Textarea) (before after : string)
  : option Inserted :=
  match textarea with
  | None => None
  | Some ta =>
      let start := selectionStart ta in
      let end_ := selectionEnd ta in
      let text := value ta in
      Some {| newText :=
                Js.substring text 0 start ++ before
                  ++ Js.substring text start end_ ++ after
                  ++ Js.substring_from text end_;
              newStart := start + Js.len before;
              newEnd := end_ + Js.len before |}
  end.

End Editor.

(** ** The generation service client: [geminiService.ts] *)

Module Gemini.

(** The fields of a thrown value that [retryWithBackoff] inspects. *)
Inductive JsVal :=
| JUndefined
| JNum (n : Z)
| JStr (s : string).

Record Error := mkError {
  status : JsVal;
  code : JsVal;
  message : JsVal
}.

(** [v === 503] *)
Definition is503 (v : JsVal) : bool :=
  match v with
  | JNum n => n =? 503
  | _ => false
  end.

(** The [isOverloaded] test of the [catch] block. *)
Definition isOverloaded (error : Error) : bool :=
  is503 (status error) || is503 (code error) ||
  match message error with
  | JStr m => Js.includes m "503" || Js.includes (Js.toLowerCase m) "overloaded"
  | _ => false
  end.

(** How one awaited call ends. *)
Inductive Outcome (T : Type) :=
| Resolved (v : T)
| Rejected (e : Error).
Arguments Resolved {T} v.
Arguments Rejected {T} e.

(** What a run of [retryWithBackoff] leaves behind: how it ends, how
    many times it called the operation, and the delays it slept, in
    milliseconds and in order. *)
Record Run (T : Type) := mkRun {
  result : Outcome T;
  calls : nat;
  sleeps : list Z
}.
Arguments mkRun {T} result calls sleeps.
Arguments result {T} r.
Arguments calls {T} r.
Arguments sleeps {T} r.

(** [retryWithBackoff(operation, retries, delay)].  [operation n] is
    what the [n]-th call of the operation from now on answers. *)
Fixpoint retryWithBackoff {T} (operation : nat -> Outcome T)
    (retries : nat) (delay : Z) : Run T :=
  match operation 0%nat with
  | Resolved v => mkRun (Resolved v) 1 []
  | Rejected error =>
      match retries with
      | S retries' =>
          if isOverloaded error then
            let r := retryWithBackoff (fun n => operation (S n)) retries' (delay * 2) in
            mkRun (result r) (S (calls r)) (delay :: sleeps r)
          else mkRun (Rejected error) 1 []
      | O => mkRun (Rejected error) 1 []
      end
  end.

(** The defaults every call site relies on: [retries = 3],
    [delay = 1000]. *)
Definition retryDefault {T} (operation : nat -> Outcome T) : Run T :=
  retryWithBackoff operation 3 1000.

(** A part of a response; [inlineData] holds the base64 data when the
    part is an image. *)
Record Part := mkPart { inlineData : option string }.

(** [response.candidates?.[0]?.content?.parts || []] *)
Definition Response := list Part.

Definition dataUrl (data : string) : string :=
  "data:image/png;base64," ++ data.

(** The [for] loop of [generateSingle]: the first part with inline data. *)
Fixpoint firstInline (parts : Response) : option string :=
  match parts with
  | [] => None
  | part :: rest =>
      match inlineData part with
      | Some data => Some (dataUrl data)
      | None => firstInline rest
      end
  end.

(** [generateSingle]: one request, with its retries; every failure is
    caught and becomes [null]. *)
Definition generateSingle (service : nat -> Outcome Response) : option string :=
  match result (retryDefault service) with
  | Resolved parts => firstInline parts
  | Rejected _ => None
  end.

(** [Math.max(1, Math.min(count, 5))] *)
Definition safeCount (count : Z) : Z := Z.max 1 (Z.min count 5).

(** [Array.from({ length: safeCount }, () => generateSingle())] awaited
    by [Promise.all]: request [i] talks to [service i]. *)
Definition requests (count : Z) (service : nat -> nat -> Outcome Response)
  : list (option string) :=
  List.map (fun i => generateSingle (service i))
           (seq 0 (Z.to_nat (safeCount count))).

(** [results.filter(url => url !== null)] *)
Fixpoint nonNull (results : list (option string)) : list string :=
  match results with
  | [] => []
  | Some url :: rest => url :: nonNull rest
  | None :: rest => nonNull rest
  end.

(** [generateImage(promptText, size, aspectRatio, count)].  No request
    rejects, so the outer [catch] is never entered. *)
Definition generateImage (count : Z) (service : nat -> nat -> Outcome Response)
  : list string :=
  nonNull (requests count service).

(** [generateSingle] with the number of calls it makes on
    [ai.models.generateContent]: the calls of its [retryWithBackoff]. *)
Definition generateSingleCalls (service : nat -> Outcome Response)
  : option string * nat :=
  let run := retryDefault service in
  (match result run with
   | Resolved parts => firstInline parts
   | Rejected _ => None
   end,
   calls run).

(** [generateImage] with the calls on [ai.models.generateContent] that
    each of its requests makes, in request order. *)
Definition generateImageCalls (count : Z) (service : nat -> nat -> Outcome Response)
  : list string * list nat :=
  let runs := List.map (fun i => generateSingleCalls (service i))
                       (seq 0 (Z.to_nat (safeCount count))) in
  (nonNull (List.map fst runs), List.map snd runs).

End Gemini.

(** ** The streaming assembler inside [handleGenerate] *)

Module Stream.

Definition RENDER_THROTTLE_MS : Z := 32.

(** The two locals of the handler and the React state they feed. *)
Record Session := mkSession {
  contentBuffer : string;
  lastUpdateTime : Z;
  generatedContent : string
}.

(** The state when [streamArticleGeneration] is called:
    [setGeneratedContent('')] has run, the locals are fresh. *)
Definition start : Session := mkSession "" 0 "".

(** The [onChunk] callback; [now] is what [Date.now()] returns. *)
Definition onChunk (s : Session) (fragment : string * Z) : Session :=
  let (chunk, now) := fragment in
  let contentBuffer' := contentBuffer s ++ chunk in
  if now - lastUpdateTime s >? RENDER_THROTTLE_MS
  then mkSession contentBuffer' now contentBuffer'
  else mkSession contentBuffer' (lastUpdateTime s) (generatedContent s).

(** How the awaited stream ends. *)
Inductive StreamEnd := Completed | Failed.

Definition deliver (fragments : list (string * Z)) : Session :=
  fold_left onChunk fragments start.

(** The [try] block around the stream.  When the stream completes the
    statement after the [await] sets the content to the buffer; when it
    rejects, control jumps to [catch], which only logs. *)
Definition handleGenerate (fragments : list (string * Z)) (e : StreamEnd)
  : Session :=
  let s := deliver fragments in
  match e with
  | Completed => mkSession (contentBuffer s) (lastUpdateTime s) (contentBuffer s)
  | Failed => s
  end.

(** The concatenation of the fragments' texts. *)
Definition concat (fragments : list (string * Z)) : string :=
  fold_right (fun f acc => fst f ++ acc) "" fragments.

End Stream.

(** ** The image set: [generatedImageUrls] and [selectedImageIndex] *)

Module Images.

Record State := mkState {
  generatedImageUrls : list string;
  selectedImageIndex : Z
}.

(** [useState([])] and [useState(0)] *)
Definition initial : State := mkState [] 0.

(** [(generatedImageUrls && generatedImageUrls[selectedImageIndex]) || null] *)
Definition currentImageUrl (st : State) : option string :=
  match Js.index (generatedImageUrls st) (selectedImageIndex st) with
  | Some url => if Js.truthy url then Some url else None
  | None => None
  end.

(** [handleGenerateImage], and the image part of [handleGenerate]: the
    set is cleared and the selection reset before the request; [urls]
    is what [generateCoverImage] resolved to. *)
Definition handleGenerateImage (st : State) (urls : list string) : State :=
  let cleared := mkState [] 0 in
  match urls with
  | [] => cleared
  | _ :: _ => mkState urls (selectedImageIndex cleared)
  end.

(** The [onClick] of a saved article, on the dashboard and in the
    history: [setGeneratedImageUrls(article.imageUrl ? [article.imageUrl] : [])]. *)
Definition openArticle (st : State) (imageUrl : option string) : State :=
  match imageUrl with
  | Some url =>
      if Js.truthy url then mkState [url] (selectedImageIndex st)
      else mkState [] (selectedImageIndex st)
  | None => mkState [] (selectedImageIndex st)
  end.

(** [setSelectedImageIndex(idx)] *)
Definition setSelectedImageIndex (idx : Z) (st : State) : State :=
  mkState (generatedImageUrls st) idx.

(** The indices the thumbnail gallery offers: one button per image.  The
    gallery sits inside the branch rendered for a current image, and is
    shown only when there is more than one image. *)
Definition thumbnails (st : State) : list Z :=
  match currentImageUrl st with
  | Some _ =>
      if (1 <? Z.of_nat (length (generatedImageUrls st)))
      then List.map Z.of_nat (seq 0 (length (generatedImageUrls st)))
      else []
  | None => []
  end.

(** How the awaited [editGeneratedImage] ends. *)
Inductive EditResult :=
| Edited (newUrl : option string)
| EditThrew.

(** [handleEditImage]: returns early without a current image or without
    a prompt; otherwise a truthy [newUrl] is written over the selected
    slot of a copy of the list.  The guard has read a defined element at
    [selectedImageIndex], so the write is inside the array. *)
Definition handleEditImage (st : State) (imageEditPrompt : string)
    (r : EditResult) : State :=
  match currentImageUrl st with
  | None => st
  | Some _ =>
      if negb (Js.truthy imageEditPrompt) then st
      else match r with
           | Edited (Some newUrl) =>
               if Js.truthy newUrl then
                 mkState (<[Z.to_nat (selectedImageIndex st) := newUrl]>
                            (generatedImageUrls st))
                         (selectedImageIndex st)
               else st
           | Edited None => st
           | EditThrew => st
           end
  end.

(** The invariant the document model asks for. *)
Definition selection_valid (st : State) : Prop :=
  generatedImageUrls st <> [] ->
  0 <= selectedImageIndex st < Z.of_nat (length (generatedImageUrls st)).

End Images.

(** ** The regular expressions of the renderers

    A matcher reads a prefix of its input and answers what it captured
    together with the rest of the input, or [None]. *)

Module Regex.

(** A literal. *)
Definition lit (p : string) (s : string) : option string :=
  if Js.startsWith s p then Some (Js.drop (String.length p) s) else None.

(** The lazy group [(.*?)] followed by [k]: the shortest run of code units
    other than line terminators after which [k] matches. *)
Fixpoint lazyDot {R} (k : string -> option R) (s : string) : option (string * R) :=
  match k s with
  | Some r => Some (EmptyString, r)
  | None =>
      match s with
      | String c s' =>
          if Js.is_line_terminator c then None
          else match lazyDot k s' with
               | Some (g, r) => Some (String c g, r)
               | None => None
               end
      | EmptyString => None
      end
  end.

(** An unanchored search: the leftmost position where [m] matches, with
    the text before it. *)
Fixpoint search {R} (m : string -> option R) (s : string) : option (string * R) :=
  match m s with
  | Some r => Some (EmptyString, r)
  | None =>
      match s with
      | String c s' =>
          match search m s' with
          | Some (pre, r) => Some (String c pre, r)
          | None => None
          end
      | EmptyString => None
      end
  end.

(** The bold pattern: two stars, a lazy group, two stars.  Answers the
    group and the rest. *)
Definition bold (s : string) : option (string * string) :=
  match lit "**" s with
  | Some s1 => lazyDot (lit "**") s1
  | None => None
  end.

(** The image pattern: an exclamation mark, a lazy group in square
    brackets, a lazy group in parentheses.  Answers the two groups, alt
    then url. *)
Definition image (s : string) : option (string * string) :=
  match lit "![" s with
  | Some s1 =>
      match lazyDot (fun s2 => match lit "](" s2 with
                               | Some s3 => lazyDot (lit ")") s3
                               | None => None
                               end) s1 with
      | Some (alt, (url, _)) => Some (alt, url)
      | None => None
      end
  | None => None
  end.

(** [s.match] on the image pattern. *)
Definition matchImage (s : string) : option (string * string) :=
  match search image s with
  | Some (_, groups) => Some groups
  | None => None
  end.

(** [s.split] on the bold pattern, written with a capture group around
    the whole pattern: the pieces between the matches, with each match
    kept as a piece of its own.  A match has at least four
    code units, so [String.length s] rounds are enough. *)
Fixpoint splitBoldFuel (fuel : nat) (s : string) : list string :=
  match fuel with
  | O => [s]
  | S fuel' =>
      match search bold s with
      | Some (pre, (g, rest)) => pre :: ("**" ++ g ++ "**") :: splitBoldFuel fuel' rest
      | None => [s]
      end
  end.

Definition splitBold (s : string) : list string :=
  splitBoldFuel (String.length s) s.

(** [s.replace] of every match of the bold pattern by its group inside
    a [strong] element. *)
Fixpoint replaceBoldFuel (fuel : nat) (s : string) : string :=
  match fuel with
  | O => s
  | S fuel' =>
      match search bold s with
      | Some (pre, (g, rest)) =>
          pre ++ "<strong>" ++ g ++ "</strong>" ++ replaceBoldFuel fuel' rest
      | None => s
      end
  end.

Definition replaceBold (s : string) : string :=
  replaceBoldFuel (String.length s) s.

End Regex.

(** ** Table rows, shared by the two renderers: [parseRow] *)

Definition nonEmpty (s : string) : bool := Js.truthy s.

Definition hasCells (cells : list string) : bool :=
  match cells with [] => false | _ :: _ => true end.

(** [row.split('|').map(c => c.trim()).filter(c => c !== '')] *)
Definition parseRow (row : string) : list string :=
  List.filter nonEmpty (List.map Js.trim (Js.split "|" row)).

(** ** The preview: the [MarkdownView] component *)

Module Preview.

(** A run of a line: plain text or [<strong>]. *)
Inductive Inline :=
| Text (s : string)
| Strong (s : string).

(** The elements the component pushes; keys and class names are left
    out.  [Img] carries the caption paragraph, present when the alt text
    is not empty. *)
Inductive Node :=
| Ul (items : list (list Inline))
| Table (headers : list string) (rows : list (list string))
| Img (src alt : string) (caption : option string)
| H1 (s : string)
| H2 (s : string)
| H3 (s : string)
| P (parts : list Inline).

Record View := mkView {
  elements : list Node;
  listBuffer : list (list Inline);
  tableBuffer : list string;
  inList : bool;
  inTable : bool
}.

Definition initial : View := mkView [] [] [] false false.

Definition push (n : Node) (v : View) : View :=
  mkView (elements v ++ [n]) (listBuffer v) (tableBuffer v) (inList v) (inTable v).

(** The bold parsing of list items and paragraphs. *)
Definition renderPart (part : string) : Inline :=
  if Js.startsWith part "**" && Js.endsWith part "**"
  then Strong (Js.slice2 part)
  else Text part.

Definition renderedParts (s : string) : list Inline :=
  List.map renderPart (Regex.splitBold s).

Definition flushList (v : View) : View :=
  match listBuffer v with
  | [] => v
  | _ :: _ =>
      mkView (elements v ++ [Ul (listBuffer v)]) [] (tableBuffer v) false (inTable v)
  end.

(** [renderTable]: [None] is the [null] returned for fewer than two rows. *)
Definition renderTable (rows : list string) : option Node :=
  if (Z.of_nat (length rows) <? 2) then None
  else
    match rows with
    | headerRow :: _ =>
        let bodyRows := List.skipn 2 rows in
        Some (Table (parseRow headerRow)
                    (List.filter hasCells (List.map parseRow bodyRows)))
    | [] => None
    end.

Definition flushTable (v : View) : View :=
  match tableBuffer v with
  | [] => v
  | _ :: _ =>
      let elements' : list Node :=
        match renderTable (tableBuffer v) with
        | Some tableNode => (elements v ++ [tableNode])%list
        | None => elements v
        end in
      mkView elements' (listBuffer v) [] (inList v) false
  end.

(** The body of [lines.forEach]. *)
Definition step (v : View) (line : string) : View :=
  let trimLine := Js.trim line in
  if Js.startsWith trimLine "|" then
    let v1 := flushList v in
    mkView (elements v1) (listBuffer v1) (tableBuffer v1 ++ [trimLine]) (inList v1) true
  else
    let v1 := if inTable v then flushTable v else v in
    let v2 := if Js.startsWith trimLine "![" then flushList v1 else v1 in
    match (if Js.startsWith trimLine "![" then Regex.matchImage trimLine else None) with
    | Some (alt, url) =>
        push (Img url alt (if Js.truthy alt then Some alt else None)) v2
    | None =>
        if Js.startsWith line "# " then
          push (H1 (Js.substring_from line 2)) (flushList v2)
        else if Js.startsWith line "## " then
          push (H2 (Js.substring_from line 3)) (flushList v2)
        else if Js.startsWith line "### " then
          push (H3 (Js.substring_from line 4)) (flushList v2)
        else if Js.startsWith trimLine "- " || Js.startsWith trimLine "* " then
          let cleanLine := Js.substring_from trimLine 2 in
          mkView (elements v2) (listBuffer v2 ++ [renderedParts cleanLine])
                 (tableBuffer v2) true (inTable v2)
        else
          let v3 := if inList v2 then flushList v2 else v2 in
          if Js.truthy trimLine then push (P (renderedParts line)) (flushList v3)
          else v3
    end.

(** The two flushes after the loop. *)
Definition finish (v : View) : list Node :=
  elements (flushTable (flushList v)).

(** [MarkdownView({ content })]; [None] is the [null] returned for an
    empty content. *)
Definition MarkdownView (content : string) : option (list Node) :=
  if negb (Js.truthy content) then None
  else Some (finish (fold_left step (Js.split "010" content) initial)).

End Preview.

(** ** The HTML export: [generateHtmlContent] of [App.tsx] *)

Module HtmlExport.

(** The double quote, as a string. *)
Definition dq : string := String (ascii_of_nat 34) EmptyString.

(** The template the document starts with. *)
Definition htmlHead (topic : string) : string :=
  "
      <!DOCTYPE html>
      <html>
      <head>
        <meta charset=" ++ dq ++ "utf-8" ++ dq ++ ">
        <title>" ++ topic ++ "</title>
        <style>
          body { font-family: sans-serif; max-width: 800px; margin: 0 auto; padding: 20px; line-height: 1.6; color: #333; }
          img { max-width: 100%; height: auto; border-radius: 10px; margin-bottom: 20px; }
          h1 { color: #111; font-size: 2em; margin-bottom: 0.5em; }
          h2 { color: #333; margin-top: 20px; font-size: 1.5em; }
          h3 { color: #444; margin-top: 15px; font-size: 1.25em; }
          ul { padding-left: 20px; }
          li { margin-bottom: 5px; }
          p { margin-bottom: 1em; }
          table { width: 100%; border-collapse: collapse; margin-bottom: 1em; border: 1px solid #ddd; }
          th, td { border: 1px solid #ddd; padding: 8px; text-align: left; }
          th { background-color: #f9fafb; font-weight: bold; }
        </style>
      </head>
      <body>
    ".

Record Writer := mkWriter {
  html : string;
  inList : bool;
  inTable : bool;
  tableBuffer : list string
}.

(** [html += piece] *)
Definition emit (piece : string) (w : Writer) : Writer :=
  mkWriter (html w ++ piece) (inList w) (inTable w) (tableBuffer w).

Definition flushList (w : Writer) : Writer :=
  if inList w then mkWriter (html w ++ "</ul>") false (inTable w) (tableBuffer w)
  else w.

(** [cells.forEach(c => html += open + c + close)] *)
Definition cellsHtml (open close : string) (cells : list string) : string :=
  fold_left (fun acc c => acc ++ open ++ c ++ close) cells "".

(** The [for] loop over the body rows, from the third row on. *)
Definition bodyHtml (rows : list string) : string :=
  fold_left (fun acc row =>
               let cells := parseRow row in
               if hasCells cells
               then acc ++ "<tr>" ++ cellsHtml "<td>" "</td>" cells ++ "</tr>"
               else acc)
            rows "".

Definition flushTable (w : Writer) : Writer :=
  match tableBuffer w with
  | [] => w
  | first :: _ =>
      if inTable w then
        let inner :=
          if (2 <=? Z.of_nat (length (tableBuffer w))) then
            "<thead><tr>" ++ cellsHtml "<th>" "</th>" (parseRow first)
              ++ "</tr></thead>" ++ "<tbody>"
              ++ bodyHtml (List.skipn 2 (tableBuffer w)) ++ "</tbody>"
          else "" in
        mkWriter (html w ++ "<table>" ++ inner ++ "</table>") (inList w) false []
      else w
  end.

(** What the image branch appends when the pattern matches. *)
Definition imageHtml (alt url : string) : string :=
  "<img src=" ++ dq ++ url ++ dq ++ " alt=" ++ dq ++ alt ++ dq ++ " />" ++
  (if Js.truthy alt
   then "<p style=" ++ dq
          ++ "text-align:center; font-style:italic; font-size:0.9em; color:#666;"
          ++ dq ++ ">" ++ alt ++ "</p>"
   else "").

(** The body of [lines.forEach]. *)
Definition step (w : Writer) (line : string) : Writer :=
  let trimLine := Js.trim line in
  if Js.startsWith trimLine "|" then
    let w1 := flushList w in
    mkWriter (html w1) (inList w1) true (tableBuffer w1 ++ [trimLine])
  else
    let w1 := if inTable w then flushTable w else w in
    if Js.startsWith trimLine "![" then
      let w2 := flushList w1 in
      match Regex.matchImage trimLine with
      | Some (alt, url) => emit (imageHtml alt url) w2
      | None => w2
      end
    else if Js.startsWith line "# " then
      emit ("<h1>" ++ Js.substring_from line 2 ++ "</h1>") (flushList w1)
    else if Js.startsWith line "## " then
      emit ("<h2>" ++ Js.substring_from line 3 ++ "</h2>") (flushList w1)
    else if Js.startsWith line "### " then
      emit ("<h3>" ++ Js.substring_from line 4 ++ "</h3>") (flushList w1)
    else if Js.startsWith trimLine "- " || Js.startsWith trimLine "* " then
      let w2 := if inList w1 then w1
                else mkWriter (html w1 ++ "<ul>") true (inTable w1) (tableBuffer w1) in
      let text := Regex.replaceBold (Js.substring_from trimLine 2) in
      emit ("<li>" ++ text ++ "</li>") w2
    else if (0 <? Js.len trimLine) then
      let text := Regex.replaceBold line in
      emit ("<p>" ++ text ++ "</p>") (flushList w1)
    else w1.

(** What the export writes between the template and the closing tags:
    the cover image, the lines, the two flushes after the loop. *)
Definition generateHtmlBody (currentImageUrl : option string)
    (generatedContent : string) : string :=
  let cover :=
    match currentImageUrl with
    | Some url => "<img src=" ++ dq ++ url ++ dq ++ " alt=" ++ dq ++ "Cover Image" ++ dq ++ " />"
    | None => ""
    end in
  let w := fold_left step (Js.split "010" generatedContent)
                     (mkWriter cover false false []) in
  html (flushTable (flushList w)).

(** [generateHtmlContent()] *)
Definition generateHtmlContent (topic : string) (currentImageUrl : option string)
    (generatedContent : string) : string :=
  htmlHead topic ++ generateHtmlBody currentImageUrl generatedContent
    ++ "</body></html>".

End HtmlExport.

(** ** The article settings: [toggleLength], keywords and categories *)

Module Settings.

(** The enum [Length] of [types.ts]. *)
Inductive Length := SHORT | MEDIUM | LONG | GEN_Z.

#[global] Instance Length_eq_dec : EqDecision Length.
Proof. solve_decision. Defined.

(** The updater [toggleLength] hands to [setConfig], on the [length]
    field: a selected entry is removed unless it is the only one; a new
    entry is appended, in place of the oldest when two are selected. *)
Definition toggleLength (l : Length) (current : list Length) : list Length :=
  if bool_decide (l ∈ current) then
    if (length current =? 1)%nat then current
    else filter (fun x => x <> l) current
  else if (2 <=? length current)%nat then (drop 1 current ++ [l])%list
  else (current ++ [l])%list.

(** [config.keywords] and [suggestedKeywords]. *)
Record Keywords := mkKeywords {
  keywords : string;
  suggestedKeywords : list string
}.

(** [addKeyword(kw)] *)
Definition addKeyword (kw : string) (st : Keywords) : Keywords :=
  mkKeywords
    (if Js.truthy (keywords st) then keywords st ++ ", " ++ kw else kw)
    (List.filter (fun k => negb (String.eqb k kw)) (suggestedKeywords st)).

(** [Array.from(new Set(xs))]: the first occurrence of each entry, in
    order; [seen] holds what the set already has. *)
Fixpoint uniqueFrom (seen xs : list string) : list string :=
  match xs with
  | [] => []
  | x :: rest =>
      if existsb (String.eqb x) seen then uniqueFrom seen rest
      else x :: uniqueFrom (x :: seen) rest
  end.

(** [xs.join(', ')] *)
Fixpoint join (xs : list string) : string :=
  match xs with
  | [] => ""
  | [x] => x
  | x :: rest => x ++ ", " ++ join rest
  end.

(** The [currentList] of [handleCopyKeywords]: the typed keywords, split
    at commas, trimmed, without the empty ones. *)
Definition currentList (typed : string) : list string :=
  if Js.truthy typed
  then List.filter (fun k => (0 <? Js.len k)) (List.map Js.trim (Js.split "," typed))
  else [].

(** The list [handleCopyKeywords] joins. *)
Definition allKeywords (st : Keywords) : list string :=
  uniqueFrom [] (currentList (keywords st) ++ suggestedKeywords st).

(** [handleCopyKeywords]: what is written to the clipboard; [None] is the
    early [return] taken when there is nothing to copy. *)
Definition handleCopyKeywords (st : Keywords) : option string :=
  let joined := join (allKeywords st) in
  if Js.truthy joined then Some joined else None.

End Settings.

(** ** Saved articles: [handleSaveArticle] and the history *)

Module History.

(** [SavedArticle] of [types.ts]; [type_] is the field [type]. *)
Record SavedArticle := mkSavedArticle {
  id : string;
  topic : string;
  content : string;
  date : Z;
  type_ : string;
  imageUrl : option string
}.

(** What the handlers of an article read and write. *)
Record Workspace := mkWorkspace {
  configTopic : string;
  configType : string;
  generatedContent : string;
  images : Images.State;
  savedArticles : list SavedArticle
}.

(** [handleSaveArticle]; [newId] is what [generateId()] returns and [now]
    what [Date.now()] returns. *)
Definition handleSaveArticle (newId : string) (now : Z) (w : Workspace) : Workspace :=
  let newArticle :=
    mkSavedArticle newId (configTopic w) (generatedContent w) now (configType w)
                   (Images.currentImageUrl (images w)) in
  mkWorkspace (configTopic w) (configType w) (generatedContent w) (images w)
              (newArticle :: savedArticles w).

(** The [onClick] that opens a saved article, on the dashboard and in
    the history. *)
Definition openSaved (article : SavedArticle) (w : Workspace) : Workspace :=
  mkWorkspace (topic article) (type_ article) (content article)
              (Images.openArticle (images w) (imageUrl article))
              (savedArticles w).

(** The [onClick] of the trash button of the history. *)
Definition deleteSaved (article : SavedArticle) (w : Workspace) : Workspace :=
  mkWorkspace (configTopic w) (configType w) (generatedContent w) (images w)
              (List.filter (fun a => negb (String.eqb (id a) (id article)))
                           (savedArticles w)).

End History.

(** ** Categories: [handleSaveCategory], [saveEditedCategory],
    [handleDeleteCategory] *)

Module Categories.

(** [Object.values(ArticleType)] *)
Definition builtin : list string :=
  [ "Personal Finance"; "Technology & Gadgets"; "Health & Fitness";
    "Food & Recipes"; "Travel"; "Beauty & Skincare"; "Fashion";
    "Home Improvement & DIY"; "Parenting"; "Pets & Animals"; "Education";
    "Business & Entrepreneurship"; "Gaming"; "AI & Productivity Tools";
    "Self-Improvement"; "Product Reviews"; "Lifestyle";
    "Kitchen & Cooking Gear"; "Luxury Products"; "Viral Trends";
    "Smart Home"; "Financial"; "Money"; "Insurance"; "Loans" ].

(** [ArticleType.TECH] *)
Definition TECH : string := "Technology & Gadgets".

Record State := mkState {
  customCategories : list string;
  configType : string;
  newCategoryName : string;
  editingCategory : option string;
  editCategoryInputValue : string;
  savedArticles : list History.SavedArticle
}.

(** [allCategories] *)
Definition allCategories (st : State) : list string :=
  (builtin ++ customCategories st)%list.

(** [a.toLowerCase() === b.toLowerCase()] *)
Definition sameIgnoringCase (a b : string) : bool :=
  String.eqb (Js.toLowerCase a) (Js.toLowerCase b).

(** [handleSaveCategory] *)
Definition handleSaveCategory (st : State) : State :=
  let trimmed := Js.trim (newCategoryName st) in
  if negb (Js.truthy trimmed) then st
  else if existsb (fun c => sameIgnoringCase c trimmed) (allCategories st) then st
  else mkState (customCategories st ++ [trimmed]) trimmed ""
               (editingCategory st) (editCategoryInputValue st) (savedArticles st).

(** [article.type === oldName ? { ...article, type: newName } : article] *)
Definition retype (oldName newName : string) (a : History.SavedArticle)
  : History.SavedArticle :=
  if String.eqb (History.type_ a) oldName
  then History.mkSavedArticle (History.id a) (History.topic a) (History.content a)
                              (History.date a) newName (History.imageUrl a)
  else a.

(** [saveEditedCategory] *)
Definition saveEditedCategory (st : State) : State :=
  match editingCategory st with
  | None => st
  | Some oldName =>
      if negb (Js.truthy oldName) || negb (Js.truthy (Js.trim (editCategoryInputValue st)))
      then st
      else
        let newName := Js.trim (editCategoryInputValue st) in
        if String.eqb oldName newName then
          mkState (customCategories st) (configType st) (newCategoryName st)
                  None "" (savedArticles st)
        else if existsb (fun c => negb (String.eqb c oldName) && sameIgnoringCase c newName)
                        (allCategories st)
        then st
        else
          mkState (List.map (fun c => if String.eqb c oldName then newName else c)
                            (customCategories st))
                  (if String.eqb (configType st) oldName then newName else configType st)
                  (newCategoryName st) None ""
                  (List.map (retype oldName newName) (savedArticles st))
  end.

(** [handleDeleteCategory(catToDelete)]; [confirmed] is the answer of
    [window.confirm]. *)
Definition handleDeleteCategory (catToDelete : string) (confirmed : bool)
    (st : State) : State :=
  if confirmed then
    mkState (List.filter (fun c => negb (String.eqb c catToDelete)) (customCategories st))
            (if String.eqb (configType st) catToDelete then TECH else configType st)
            (newCategoryName st) (editingCategory st) (editCategoryInputValue st)
            (savedArticles st)
  else st.

End Categories.

(** ** Inserting a generated image at the cursor:
    [handleConfirmInsertImage] *)

Module Insertion.

Definition nl : string := String "010" EmptyString.

Record State := mkState {
  generatedContent : string;
  insertImagePrompt : string;
  insertImageCursorPos : Z;
  showInsertImageModal : bool
}.

(** The template literal [imageMarkdown]. *)
Definition imageLine (prompt url : string) : string :=
  "![" ++ prompt ++ "](" ++ url ++ ")".

Definition imageMarkdown (prompt url : string) : string :=
  nl ++ nl ++ imageLine prompt url ++ nl ++ nl.

(** [handleConfirmInsertImage]; [urls] is what the awaited
    [generateImage] resolved to.  The answer holds the new state and the
    cursor position handed to [setSelectionRange], when an image was
    inserted. *)
Definition handleConfirmInsertImage (st : State) (urls : list string)
  : State * option Z :=
  if negb (Js.truthy (insertImagePrompt st)) then (st, None)
  else
    match urls with
    | [] => (st, None)
    | url :: _ =>
        if Js.truthy url then
          let currentContent := generatedContent st in
          let position := insertImageCursorPos st in
          let before := Js.substring currentContent 0 position in
          let after := Js.substring_from currentContent position in
          let md := imageMarkdown (insertImagePrompt st) url in
          (mkState (before ++ md ++ after) "" position false,
           Some (position + Js.len md))
        else (st, None)
    end.

End Insertion.

(** ** Editing an image: [editGeneratedImage] of [geminiService.ts] *)

Module GeminiEdit.

(** [\w] *)
Definition isWord (c : ascii) : bool :=
  let n := nat_of_ascii c in
  (Nat.leb 48 n && Nat.leb n 57) || (Nat.leb 65 n && Nat.leb n 90)
  || (Nat.leb 97 n && Nat.leb n 122) || Nat.eqb n 95.

(** What is left after the longest run of word characters. *)
Fixpoint afterWord (s : string) : string :=
  match s with
  | String c s' => if isWord c then afterWord s' else s
  | EmptyString => EmptyString
  end.

(** [s.replace(pattern, '')] for the anchored pattern made of
    [data:image/], one or more word characters and [;base64,].  The run
    of word characters is greedy; giving characters back cannot help,
    since a semicolon has to follow it. *)
Definition stripDataPrefix (s : string) : string :=
  match Regex.lit "data:image/" s with
  | Some (String c s1) =>
      if isWord c then
        match Regex.lit ";base64," (afterWord s1) with
        | Some rest => rest
        | None => s
        end
      else s
  | _ => s
  end.

(** A part of the request. *)
Inductive SentPart :=
| SentInline (mimeType data : string)
| SentText (text : string).

(** The [parts] array of the request; [maskBase64] is [None] when the
    argument is left out. *)
Definition editParts (imageBase64 prompt : string) (maskBase64 : option string)
  : list SentPart :=
  let image := SentInline "image/png" (stripDataPrefix imageBase64) in
  match maskBase64 with
  | Some mask =>
      if Js.truthy mask then
        [image; SentInline "image/png" (stripDataPrefix mask);
         SentText ("Edit the first image based on the mask provided in the second image. The white pixels in the mask indicate the area to be modified. Modification instruction: " ++ prompt)]
      else [image; SentText prompt]
  | None => [image; SentText prompt]
  end.

(** [editGeneratedImage]: the answer is the first inline image of the
    response, [null] without one; an error is thrown on. *)
Definition editGeneratedImage
    (service : list SentPart -> nat -> Gemini.Outcome Gemini.Response)
    (imageBase64 prompt : string) (maskBase64 : option string)
  : Images.EditResult :=
  match Gemini.result
          (Gemini.retryDefault (service (editParts imageBase64 prompt maskBase64))) with
  | Gemini.Resolved parts => Images.Edited (Gemini.firstInline parts)
  | Gemini.Rejected _ => Images.EditThrew
  end.

End GeminiEdit.

(** ** File names of the exports: [handleExportMarkdown], [handleExportHtml] *)

Module Files.

(** [s.replace] of every run of white space by one underscore; [inRun]
    tells that the code unit before was white space. *)
Fixpoint underscores (inRun : bool) (s : string) : string :=
  match s with
  | EmptyString => EmptyString
  | String c s' =>
      if Js.is_ws c then
        if inRun then underscores true s' else String "_" (underscores true s')
      else String c (underscores false s')
  end.

(** The [download] name: the topic with its white space replaced, or
    [article] for an empty topic, and the extension. *)
Definition downloadName (topic extension : string) : string :=
  let stem := underscores false topic in
  (if Js.truthy stem then stem else "article") ++ extension.

End Files.

(** * The vocabulary of the statements *)

(** An attempt that ends in an overload error. *)
Definition overloaded_failure {T : Type} (o : Gemini.Outcome T) : bool :=
  match o with
  | Gemini.Resolved _ => false
  | Gemini.Rejected e => Gemini.isOverloaded e
  end.

(** The delays slept before the first [k] retries, starting at [delay]. *)
Fixpoint backoff (delay : Z) (k : nat) : list Z :=
  match k with
  | O => []
  | S k' => delay :: backoff (delay * 2) k'
  end.

(** Three errors for the examples: a 503 status, an overload told by the
    message only, and an error that is no overload. *)
Definition busy : Gemini.Error :=
  Gemini.mkError (Gemini.JNum 503) Gemini.JUndefined Gemini.JUndefined.

Definition overloadedMessage : Gemini.Error :=
  Gemini.mkError Gemini.JUndefined Gemini.JUndefined
                 (Gemini.JStr "The model is Overloaded. Please try again later.").

Definition badRequest : Gemini.Error :=
  Gemini.mkError (Gemini.JNum 400) Gemini.JUndefined (Gemini.JStr "Bad request").

(** What holds after every delivery of the stream: the buffer is the
    concatenation of all the fragments delivered, and the visible text is
    the concatenation of those delivered up to the last flush. *)
Definition assembled (done : list (string * Z)) (s : Stream.Session) : Prop :=
  Stream.contentBuffer s = Stream.concat done /\
  exists k : nat, (k <= length done)%nat /\
                  Stream.generatedContent s = Stream.concat (firstn k done).

(** A line is a table row when its trimmed form starts with a bar. *)
Definition isTableLine (line : string) : bool :=
  Js.startsWith (Js.trim line) "|".

(** The block a flush adds for the answer of [renderTable]. *)
Definition blockOf (o : option Preview.Node) : list Preview.Node :=
  match o with
  | Some n => [n]
  | None => []
  end.

(** The view after a run of table rows: the list is flushed, the trimmed
    rows are in the buffer. *)
Definition accumulated (v : Preview.View) (rows : list string) : Preview.View :=
  Preview.mkView (Preview.elements (Preview.flushList v)) []
                 (Preview.tableBuffer v ++ List.map Js.trim rows)
                 (Preview.inList (Preview.flushList v)) true.

(** The view after the flush of that run. *)
Definition flushed (v : Preview.View) (rows : list string) : Preview.View :=
  Preview.mkView
    (Preview.elements (Preview.flushList v)
       ++ blockOf (Preview.renderTable (List.map Js.trim rows)))
    [] [] (Preview.inList (Preview.flushList v)) false.

(** The line feed, as a string. *)
Definition LF : string := String "010" EmptyString.

(** Every code unit of [s] passes [p]. *)
Fixpoint every (p : ascii -> bool) (s : string) : bool :=
  match s with
  | EmptyString => true
  | String c s' => p c && every p s'
  end.

(** Another code unit than [c]. *)
Definition isNot (c a : ascii) : bool := negb (Ascii.eqb c a).

(** A code unit that is no line terminator. *)
Definition inLine (a : ascii) : bool := negb (Js.is_line_terminator a).



Definition altChar (a : ascii) : bool := isNot "]" a && inLine a.

Definition urlChar (a : ascii) : bool := isNot ")" a && inLine a.

(** A text that is not empty and neither starts nor ends with white
    space. *)
Definition tight (s : string) : bool :=
  match s, Js.rev s with
  | String a _, String z _ => negb (Js.is_ws a) && negb (Js.is_ws z)
  | _, _ => false
  end.

(** A line is a list item when its trimmed form starts with a dash or a
    star and a space. *)
Definition isListLine (line : string) : bool :=
  Js.startsWith (Js.trim line) "- " || Js.startsWith (Js.trim line) "* ".

(** The item the preview makes of a list line. *)
Definition listItem (line : string) : list Preview.Inline :=
  Preview.renderedParts (Js.substring_from (Js.trim line) 2).

(** The view the preview is in once the table that was open, if any, is
    flushed: what every line that is no table row starts from. *)
Definition tableClosed (v : Preview.View) : Preview.View :=
  if Preview.inTable v then Preview.flushTable v else v.

(** The same for the export. *)
Definition tableClosedW (w : HtmlExport.Writer) : HtmlExport.Writer :=
  if HtmlExport.inTable w then HtmlExport.flushTable w else w.

(** A table row written from its cells. *)
Definition rowOf (cells : list string) : string :=
  "|" ++ fold_right (fun c acc => " " ++ c ++ " |" ++ acc) "" cells.

(** The visible text once the first [n] fragments have arrived. *)
Definition shownAfter (fragments : list (string * Z)) (n : nat) : string :=
  Stream.generatedContent (Stream.deliver (firstn n fragments)).

(** The time at which fragment [k], counted from 1, arrived; for [k = 0]
    the time 0 at which the throttle starts. *)
Definition arrival (fragments : list (string * Z)) (k : nat) : Z :=
  match k with
  | O => 0
  | S k' => match fragments !! k' with
            | Some f => snd f
            | None => 0
            end
  end.

(** The sum of a list of counts. *)
Definition total (l : list nat) : nat := fold_right Nat.add 0%nat l.

(** A part of a response that holds no image. *)
Definition noImage (part : Gemini.Part) : Prop := Gemini.inlineData part = None.

(** A code unit that is no white space. *)
Definition noSpace (a : ascii) : bool := negb (Js.is_ws a).

(** No string occurs twice in the list, as a test. *)
Fixpoint distinctb (l : list string) : bool :=
  match l with
  | [] => true
  | x :: rest => negb (existsb (String.eqb x) rest) && distinctb rest
  end.

(** No two names of the list are equal when letter case is ignored. *)
Definition distinctIgnoringCase (names : list string) : Prop :=
  NoDup (List.map Js.toLowerCase names).


(** * Properties *)

(** ** Strings *)

Section StringFacts.

Lemma take_drop (n : nat) (s : string) : Js.take n s ++ Js.drop n s = s.
Proof.
  revert s. induction n as [|n IH]; intros [|c s]; simpl; try reflexivity.
  now rewrite IH.
Qed.

Lemma drop_drop (n m : nat) (s : string) :
  Js.drop m (Js.drop n s) = Js.drop (n + m) s.
Proof.
  revert s. induction n as [|n IH]; intros s; simpl.
  - reflexivity.
  - destruct s as [|c s]; simpl.
    + now destruct m.
    + apply IH.
Qed.

Lemma length_take (n : nat) (s : string) :
  (n <= String.length s)%nat -> String.length (Js.take n s) = n.
Proof.
  revert s. induction n as [|n IH]; intros [|c s]; simpl; intros H;
    try reflexivity; try lia.
  rewrite IH; [reflexivity | lia].
Qed.

Lemma str_length_app (s t : string) :
  String.length (s ++ t) = (String.length s + String.length t)%nat.
Proof. induction s as [|c s IH]; simpl; [reflexivity | now rewrite IH]. Qed.

Lemma len_app (s t : string) : Js.len (s ++ t) = Js.len s + Js.len t.
Proof. unfold Js.len. rewrite str_length_app. lia. Qed.

Lemma app_assoc_s (s t u : string) : (s ++ t) ++ u = s ++ t ++ u.
Proof. induction s as [|c s IH]; simpl; [reflexivity | now rewrite IH]. Qed.

Lemma app_empty_r (s : string) : s ++ "" = s.
Proof. induction s as [|c s IH]; simpl; [reflexivity | now rewrite IH]. Qed.

Lemma take_app_exact (p q : string) : Js.take (String.length p) (p ++ q) = p.
Proof. induction p as [|c p IH]; simpl; [now destruct q | now rewrite IH]. Qed.

Lemma drop_app_exact (p q : string) : Js.drop (String.length p) (p ++ q) = q.
Proof. induction p as [|c p IH]; simpl; [reflexivity | exact IH]. Qed.

(** A slice whose bounds are the lengths of a decomposition is the middle
    part of the decomposition. *)
Lemma substring_middle (p q r : string) :
  Js.substring (p ++ q ++ r) (Js.len p) (Js.len p + Js.len q) = q.
Proof.
  unfold Js.substring, Js.clamp.
  rewrite !len_app. unfold Js.len.
  set (a := String.length p). set (b := String.length q).
  set (c := String.length r).
  replace (Z.min (Z.min (Z.max (Z.of_nat a) 0) (Z.of_nat a + (Z.of_nat b + Z.of_nat c)))
                 (Z.min (Z.max (Z.of_nat a + Z.of_nat b) 0)
                        (Z.of_nat a + (Z.of_nat b + Z.of_nat c))))
    with (Z.of_nat a) by lia.
  replace (Z.max (Z.min (Z.max (Z.of_nat a) 0) (Z.of_nat a + (Z.of_nat b + Z.of_nat c)))
                 (Z.min (Z.max (Z.of_nat a + Z.of_nat b) 0)
                        (Z.of_nat a + (Z.of_nat b + Z.of_nat c))) - Z.of_nat a)
    with (Z.of_nat b) by lia.
  rewrite !Nat2Z.id. subst a b c.
  rewrite drop_app_exact. apply take_app_exact.
Qed.

(** Every text splits at two ordered positions inside it. *)
Lemma split_at (text : string) (i j : Z) :
  0 <= i <= j -> j <= Js.len text ->
  exists p q r, text = p ++ q ++ r /\ Js.len p = i /\ Js.len q = j - i.
Proof.
  intros Hij Hj. unfold Js.len in *.
  exists (Js.take (Z.to_nat i) text),
         (Js.take (Z.to_nat (j - i)) (Js.drop (Z.to_nat i) text)),
         (Js.drop (Z.to_nat (j - i)) (Js.drop (Z.to_nat i) text)).
  split; [now rewrite !take_drop|].
  assert (Hd : String.length (Js.drop (Z.to_nat i) text)
               = (String.length text - Z.to_nat i)%nat).
  { pose proof (take_drop (Z.to_nat i) text) as E.
    apply (f_equal String.length) in E. rewrite str_length_app in E.
    rewrite length_take in E by lia. lia. }
  split.
  - rewrite length_take by lia. lia.
  - rewrite length_take by lia. lia.
Qed.

End StringFacts.

(** ** The bold pattern *)

Section BoldPattern.

Lemma startsWith_drop (p s : string) :
  Js.startsWith s p = true -> p ++ Js.drop (String.length p) s = s.
Proof.
  revert s. induction p as [|a p IH]; intros s H; simpl in *.
  - now destruct s.
  - destruct s as [|b s]; [discriminate|].
    apply andb_true_iff in H as [Hab Hp].
    apply Ascii.eqb_eq in Hab. subst b. simpl. now rewrite IH.
Qed.

Lemma lit_sound (p s r : string) : Regex.lit p s = Some r -> s = p ++ r.
Proof.
  unfold Regex.lit. destruct (Js.startsWith s p) eqn:E; [|discriminate].
  intros [= <-]. symmetry. now apply startsWith_drop.
Qed.

Lemma lazyDot_lit_sound (p s g r : string) :
  Regex.lazyDot (Regex.lit p) s = Some (g, r) -> s = g ++ p ++ r.
Proof.
  revert g. induction s as [|c s IH]; intros g; simpl.
  - destruct (Regex.lit p "") eqn:E; [|discriminate].
    intros H. inversion H; subst. simpl. now apply lit_sound.
  - destruct (Regex.lit p (String c s)) eqn:E.
    + intros H. inversion H; subst. simpl. now apply lit_sound.
    + destruct (Js.is_line_terminator c); [discriminate|].
      destruct (Regex.lazyDot (Regex.lit p) s) as [[g' r']|]; [|discriminate].
      intros H. inversion H; subst. simpl. now rewrite (IH g' eq_refl) at 1.
Qed.

(** A match of the bold pattern is two stars, the group, two stars. *)
Lemma bold_sound (s g r : string) :
  Regex.bold s = Some (g, r) -> s = "**" ++ g ++ "**" ++ r.
Proof.
  unfold Regex.bold. destruct (Regex.lit "**" s) as [s1|] eqn:E; [|discriminate].
  intros H. apply lit_sound in E. apply lazyDot_lit_sound in H. now subst.
Qed.

Lemma search_sound {R} (m : string -> option R) (s pre : string) (x : R) :
  Regex.search m s = Some (pre, x) -> exists t, s = pre ++ t /\ m t = Some x.
Proof.
  revert pre. induction s as [|c s IH]; intros pre; simpl.
  - destruct (m "") eqn:E; [|discriminate].
    intros H. inversion H; subst. now exists "".
  - destruct (m (String c s)) eqn:E.
    + intros H. inversion H; subst. now exists (String c s).
    + destruct (Regex.search m s) as [[pre' x']|]; [|discriminate].
      intros H. inversion H; subst.
      destruct (IH pre' eq_refl) as (t & Hs & Ht).
      exists t. split; [simpl; now rewrite Hs at 1 | exact Ht].
Qed.

(** What is left after a match of the bold pattern is shorter. *)
Lemma search_bold_shorter (s pre g rest : string) :
  Regex.search Regex.bold s = Some (pre, (g, rest)) ->
  s = pre ++ "**" ++ g ++ "**" ++ rest /\
  (String.length rest < String.length s)%nat.
Proof.
  intros H. apply search_sound in H as (t & -> & Ht).
  apply bold_sound in Ht. subst t. split; [reflexivity|].
  rewrite !str_length_app. simpl. lia.
Qed.

(** The rounds given to [splitBold] and [replaceBold] are enough: more
    rounds change nothing. *)
Lemma splitBold_fuel_enough (n : nat) :
  forall (m : nat) (s : string),
    (String.length s <= n)%nat -> (String.length s <= m)%nat ->
    Regex.splitBoldFuel n s = Regex.splitBoldFuel m s.
Proof.
  induction n as [|n IH]; intros m s Hn Hm.
  - destruct s; [|simpl in Hn; lia]. now destruct m.
  - destruct m as [|m].
    + destruct s; [reflexivity | simpl in Hm; lia].
    + simpl. destruct (Regex.search Regex.bold s) as [[pre [g rest]]|] eqn:E;
        [|reflexivity].
      apply search_bold_shorter in E as [_ Hlt].
      rewrite (IH m rest) by lia. reflexivity.
Qed.

Lemma replaceBold_fuel_enough (n : nat) :
  forall (m : nat) (s : string),
    (String.length s <= n)%nat -> (String.length s <= m)%nat ->
    Regex.replaceBoldFuel n s = Regex.replaceBoldFuel m s.
Proof.
  induction n as [|n IH]; intros m s Hn Hm.
  - destruct s; [|simpl in Hn; lia]. now destruct m.
  - destruct m as [|m].
    + destruct s; [reflexivity | simpl in Hm; lia].
    + simpl. destruct (Regex.search Regex.bold s) as [[pre [g rest]]|] eqn:E;
        [|reflexivity].
      apply search_bold_shorter in E as [_ Hlt].
      rewrite (IH m rest) by lia. reflexivity.
Qed.

(** X1.  Splitting a line on the bold pattern loses nothing: the pieces,
    put together in order, are the line. *)
Lemma splitBold_pieces (s : string) :
  fold_right String.append "" (Regex.splitBold s) = s.
Proof.
  unfold Regex.splitBold.
  assert (H : forall n t, (String.length t <= n)%nat ->
                fold_right String.append "" (Regex.splitBoldFuel n t) = t).
  { induction n as [|n IH]; intros t Ht.
    - simpl. apply app_empty_r.
    - simpl. destruct (Regex.search Regex.bold t) as [[pre [g rest]]|] eqn:E.
      + apply search_bold_shorter in E as [Et Hlt]. simpl.
        rewrite IH by lia.
        etransitivity; [|symmetry; exact Et].
        simpl. now rewrite !app_assoc_s.
      + simpl. apply app_empty_r. }
  now apply H.
Qed.

End BoldPattern.

(** ** Cursor-aware insertion *)

(** C6.  [insertText] is a splice.  For every text and every selection
    range [start, end_] inside it, the text falls into the part before
    the selection, the selected part and the part after it; the new text
    is these three parts, in order, with [before] put in front of the
    selected part and [after] behind it; the new selection is the old one
    shifted by the length of [before], and it still holds the selected
    part.  Nothing of the old text is dropped or reordered. *)
Theorem insertText_is_splice (text before after : string) (start end_ : Z) :
  0 <= start <= end_ -> end_ <= Js.len text ->
  exists p q r,
    text = p ++ q ++ r /\ Js.len p = start /\ Js.len p + Js.len q = end_ /\
    Editor.insertText (Some (Editor.mkTextarea text start end_)) before after
      = Some (Editor.mkInserted (p ++ before ++ q ++ after ++ r)
                                (start + Js.len before)
                                (end_ + Js.len before)) /\
    Js.substring (p ++ before ++ q ++ after ++ r)
                 (start + Js.len before) (end_ + Js.len before) = q.
Proof.
  intros Hse He.
  destruct (split_at text start end_ Hse He) as (p & q & r & Ht & Hp & Hq).
  exists p, q, r. repeat split; try assumption; try lia.
  - unfold Editor.insertText. cbn [Editor.value Editor.selectionStart Editor.selectionEnd].
    f_equal. f_equal. subst text.
    assert (E1 : Js.substring (p ++ q ++ r) 0 start = p).
    { pose proof (substring_middle "" p (q ++ r)) as E.
      change ("" ++ p ++ q ++ r) with (p ++ q ++ r) in E.
      change (Js.len "") with 0 in E. rewrite Z.add_0_l in E.
      rewrite <- Hp. exact E. }
    assert (E2 : Js.substring (p ++ q ++ r) start end_ = q).
    { rewrite <- Hp. replace end_ with (Js.len p + Js.len q) by lia.
      apply substring_middle. }
    assert (E3 : Js.substring_from (p ++ q ++ r) end_ = r).
    { unfold Js.substring_from.
      pose proof (substring_middle (p ++ q) r "") as E.
      rewrite app_empty_r, !len_app in E.
      rewrite app_assoc_s in E. rewrite !len_app.
      replace end_ with (Js.len p + Js.len q) by lia.
      replace (Js.len p + (Js.len q + Js.len r))
        with (Js.len p + Js.len q + Js.len r) by lia.
      exact E. }
    now rewrite E1, E2, E3.
  - pose proof (substring_middle (p ++ before) q (after ++ r)) as E.
    rewrite !app_assoc_s, len_app in E.
    replace (start + Js.len before) with (Js.len p + Js.len before) by lia.
    replace (end_ + Js.len before) with (Js.len p + Js.len before + Js.len q) by lia.
    exact E.
Qed.

(** The claim's example: the bold button on the selection [0, 5] of
    ["Hello world"]. *)
Example insertText_hello :
  Editor.insertText (Some (Editor.mkTextarea "Hello world" 0 5)) "**" "**"
    = Some (Editor.mkInserted "**Hello** world" 2 7).
Proof. reflexivity. Qed.

(** The theorem at the selection of the example. *)
Lemma insertText_is_splice_witness :
  (0 <= 0 <= 5 /\ 5 <= Js.len "Hello world") /\
  exists p q r,
    "Hello world" = p ++ q ++ r /\ Js.len p = 0 /\ Js.len p + Js.len q = 5 /\
    Editor.insertText (Some (Editor.mkTextarea "Hello world" 0 5)) "**" "**"
      = Some (Editor.mkInserted (p ++ "**" ++ q ++ "**" ++ r)
                                (0 + Js.len "**") (5 + Js.len "**")) /\
    Js.substring (p ++ "**" ++ q ++ "**" ++ r)
                 (0 + Js.len "**") (5 + Js.len "**") = q.
Proof.
  assert (H : 0 <= 0 <= 5 /\ 5 <= Js.len "Hello world")
    by (vm_compute; repeat split; discriminate).
  split; [exact H|].
  apply (insertText_is_splice "Hello world" "**" "**" 0 5); apply H.
Defined.

(** ** Retry with backoff *)

Section Retry.

Import Gemini.

Context {T : Type}.

(** A run retries as long as the attempts end in overload errors and
    retries are left, and hands on the outcome of the attempt it stops at. *)
Lemma retry_run (retries : nat) :
  forall (operation : nat -> Outcome T) (delay : Z),
  exists k : nat,
    (k <= retries)%nat /\
    (forall i, (i < k)%nat -> overloaded_failure (operation i) = true) /\
    (k = retries \/ overloaded_failure (operation k) = false) /\
    retryWithBackoff operation retries delay
      = mkRun (operation k) (S k) (backoff delay k).
Proof.
  induction retries as [|r IH]; intros operation delay.
  - exists 0%nat. repeat split; [lia | lia | now left |].
    simpl. now destruct (operation 0%nat).
  - destruct (operation 0%nat) as [v|e] eqn:E0.
    + exists 0%nat. repeat split; [lia | lia | right; now rewrite E0 |].
      simpl. now rewrite E0.
    + destruct (isOverloaded e) eqn:Eo.
      * destruct (IH (fun n => operation (S n)) (delay * 2))
          as (k & Hk & Hlt & Hstop & Hrun).
        exists (S k). repeat split.
        -- lia.
        -- intros [|i] Hi; [now rewrite E0 | apply Hlt; lia].
        -- destruct Hstop as [->|Hstop]; [now left | now right].
        -- simpl. rewrite E0, Eo, Hrun. reflexivity.
      * exists 0%nat. repeat split; [lia | lia | right; now rewrite E0 |].
        simpl. now rewrite E0, Eo.
Qed.

End Retry.

(** The same at the defaults. *)
Lemma retryDefault_run {T : Type} (operation : nat -> Gemini.Outcome T) :
  exists k : nat,
    (k <= 3)%nat /\
    (forall i, (i < k)%nat -> overloaded_failure (operation i) = true) /\
    (k = 3%nat \/ overloaded_failure (operation k) = false) /\
    Gemini.retryDefault operation
      = Gemini.mkRun (operation k) (S k) (backoff 1000 k).
Proof. exact (retry_run 3 operation 1000). Qed.

(** C7.  With the defaults every call site uses, a call is retried while
    its attempts fail with an overload error, at most three times, after
    delays of 1000, 2000 and 4000 ms.  The run stops at the first attempt
    [k] that does not fail with an overload error, or at the fourth
    attempt, and hands on the outcome of that attempt: a result, an error
    that is no overload error, or the overload error of the fourth
    attempt.  It has then called the service [k + 1] times and slept the
    first [k] of the three delays. *)
Theorem retry_up_to_three_with_backoff {T : Type}
    (operation : nat -> Gemini.Outcome T) :
  exists k : nat,
    (k <= 3)%nat /\
    (forall i, (i < k)%nat -> overloaded_failure (operation i) = true) /\
    (k = 3%nat \/ overloaded_failure (operation k) = false) /\
    Gemini.retryDefault operation
      = Gemini.mkRun (operation k) (S k) (firstn k [1000; 2000; 4000]).
Proof.
  destruct (retry_run 3 operation 1000) as (k & Hk & Hlt & Hstop & Hrun).
  exists k. repeat split; try assumption.
  unfold Gemini.retryDefault. rewrite Hrun. f_equal.
  destruct k as [|[|[|[|k]]]]; try reflexivity; lia.
Qed.

(** Four overload errors in a row: three retries, then the error. *)
Example retry_exhausted :
  Gemini.retryDefault (fun _ => Gemini.Rejected (T := nat) busy)
    = Gemini.mkRun (Gemini.Rejected busy) 4 [1000; 2000; 4000].
Proof. reflexivity. Qed.

(** An overload error recognised by its message, then a result. *)
Example retry_then_result :
  Gemini.retryDefault
    (fun n => match n with
              | O => Gemini.Rejected overloadedMessage
              | _ => Gemini.Resolved 7%nat
              end)
    = Gemini.mkRun (Gemini.Resolved 7%nat) 2 [1000].
Proof. reflexivity. Qed.

(** Another error is handed on at once, also after a retry. *)
Example retry_other_error :
  Gemini.retryDefault (fun _ => Gemini.Rejected (T := nat) badRequest)
    = Gemini.mkRun (Gemini.Rejected badRequest) 1 [] /\
  Gemini.retryDefault
    (fun n => match n with
              | O => Gemini.Rejected (T := nat) busy
              | _ => Gemini.Rejected badRequest
              end)
    = Gemini.mkRun (Gemini.Rejected badRequest) 2 [1000].
Proof. split; reflexivity. Qed.

(** ** Image generation count *)

Lemma nonNull_omap {A} (f : A -> option string) (l : list A) :
  Gemini.nonNull (List.map f l) = omap f l.
Proof.
  induction l as [|a l IH]; simpl; [reflexivity|].
  destruct (f a); simpl; now rewrite IH.
Qed.

Lemma length_nonNull (l : list (option string)) :
  (length (Gemini.nonNull l) <= length l)%nat.
Proof.
  induction l as [|[u|] l IH]; simpl; lia.
Qed.

Lemma retryDefault_calls {T : Type} (operation : nat -> Gemini.Outcome T) :
  (1 <= Gemini.calls (Gemini.retryDefault operation) <= 4)%nat /\
  (Gemini.calls (Gemini.retryDefault operation) = 1%nat <->
   overloaded_failure (operation 0%nat) = false).
Proof.
  unfold Gemini.retryDefault.
  destruct (retry_run 3 operation 1000) as (k & Hk & Hlt & Hstop & ->).
  cbn [Gemini.calls]. split; [lia|]. split.
  - intros E. destruct Hstop as [->|Hstop]; [discriminate|].
    now replace k with 0%nat in Hstop by lia.
  - intros E. destruct k as [|k]; [reflexivity|].
    rewrite (Hlt 0%nat) in E by lia. discriminate.
Qed.

Lemma total_map_bounds {A} (f : A -> nat) (lo hi : nat) (l : list A) :
  (forall x, lo <= f x <= hi)%nat ->
  (lo * length l <= total (List.map f l) <= hi * length l)%nat.
Proof.
  intros H. induction l as [|a l IH]; simpl; [lia|].
  specialize (H a). lia.
Qed.

Lemma total_map_ones {A} (f : A -> nat) (l : list A) :
  (forall x, 1 <= f x)%nat ->
  total (List.map f l) = length l <-> (forall x, In x l -> f x = 1%nat).
Proof.
  intros H. induction l as [|a l IH]; simpl.
  - split; [intros _ x [] | reflexivity].
  - pose proof (total_map_bounds f 1 (total (List.map f l)) l) as Hb.
    assert (Hl : (length l <= total (List.map f l))%nat).
    { clear IH Hb. induction l as [|b l IHl]; simpl; [lia|].
      specialize (H b). lia. }
    specialize (H a). split.
    + intros E x [<-|Hx]; [lia|]. apply IH; [lia | exact Hx].
    + intros E. rewrite (E a) by now left.
      f_equal. apply IH. intros x Hx. apply E. now right.
Qed.

(** C9, as the claim states it, fails: two images are asked for, and the
    first call of the first request fails with an overload error.  The
    request is retried, so the collaborator is called three times, not
    the clamped count of two. *)
Lemma generateImage_retry_adds_calls :
  Gemini.generateImageCalls 2
    (fun i n =>
       match i, n with
       | O, O => Gemini.Rejected busy
       | _, _ => Gemini.Resolved [Gemini.mkPart (Some "QUJD")]
       end)
    = (["data:image/png;base64,QUJD"; "data:image/png;base64,QUJD"],
       [2%nat; 1%nat]) /\
  total [2%nat; 1%nat] = 3%nat /\
  Z.to_nat (Z.max 1 (Z.min 2 5)) = 2%nat /\
  total [2%nat; 1%nat] <> Z.to_nat (Z.max 1 (Z.min 2 5)).
Proof.
  split; [reflexivity|]. split; [reflexivity|]. split; [reflexivity|].
  discriminate.
Qed.

(** C9, amended.  For every requested count, [generateImage] starts
    [max(1, min(count, 5))] requests: one for a count of at most 1, the
    count itself between 1 and 5, five for a count of at least 5.  Each
    request calls the collaborator once and once more after every call
    that failed with an overload error, four times at most: it stops at
    the first attempt [k] that does not fail with an overload error, or
    at the fourth, has then made [k + 1] calls, and yields the first
    image of the answer of that attempt, or nothing.  The calls on the
    collaborator therefore number between the clamped count and four
    times it, and exactly the clamped count when, and only when, no
    first call fails with an overload error.  The result lists, in
    request order, the images of the requests that yielded one. *)
Theorem generateImage_clamps_count (count : Z)
    (service : nat -> nat -> Gemini.Outcome Gemini.Response) :
  let n := Z.to_nat (Z.max 1 (Z.min count 5)) in
  let made := snd (Gemini.generateImageCalls count service) in
  length made = n /\
  (1 <= n <= 5)%nat /\
  (count <= 1 -> n = 1%nat) /\
  (1 <= count <= 5 -> n = Z.to_nat count) /\
  (5 <= count -> n = 5%nat) /\
  (forall i : nat, (i < n)%nat ->
     exists k : nat,
       (k <= 3)%nat /\
       (forall a, (a < k)%nat -> overloaded_failure (service i a) = true) /\
       (k = 3%nat \/ overloaded_failure (service i k) = false) /\
       nth i made 0%nat = S k /\
       Gemini.generateSingle (service i)
         = match service i k with
           | Gemini.Resolved parts => Gemini.firstInline parts
           | Gemini.Rejected _ => None
           end) /\
  (n <= total made <= 4 * n)%nat /\
  (total made = n <->
   forall i : nat, (i < n)%nat -> overloaded_failure (service i 0%nat) = false) /\
  fst (Gemini.generateImageCalls count service) = Gemini.generateImage count service /\
  Gemini.generateImage count service
    = omap (fun i => Gemini.generateSingle (service i)) (seq 0 n) /\
  (length (Gemini.generateImage count service) <= n)%nat.
Proof.
  cbv zeta.
  set (n := Z.to_nat (Z.max 1 (Z.min count 5))).
  assert (Hmade : snd (Gemini.generateImageCalls count service)
                  = List.map (fun i => Gemini.calls (Gemini.retryDefault (service i)))
                             (seq 0 n)).
  { unfold Gemini.generateImageCalls, Gemini.safeCount. cbn [snd].
    now rewrite List.map_map. }
  assert (Hfst : fst (Gemini.generateImageCalls count service)
                 = Gemini.generateImage count service).
  { unfold Gemini.generateImageCalls, Gemini.generateImage, Gemini.requests.
    cbn [fst]. now rewrite List.map_map. }
  assert (Hlen : length (Gemini.requests count service) = n).
  { unfold Gemini.requests, Gemini.safeCount.
    now rewrite length_map, length_seq. }
  rewrite Hmade.
  split; [now rewrite length_map, length_seq|].
  split; [lia|]. split; [lia|]. split; [lia|]. split; [lia|].
  split; [|split; [|split; [|split; [|split]]]].
  - intros i Hi.
    destruct (retryDefault_run (service i)) as (k & Hk & Hlt & Hstop & Hrun).
    exists k. split; [exact Hk|]. split; [exact Hlt|]. split; [exact Hstop|]. split.
    + rewrite (nth_indep _ 0%nat
                 (Gemini.calls (Gemini.retryDefault (service 0%nat))))
        by now rewrite length_map, length_seq.
      rewrite (map_nth (fun i => Gemini.calls (Gemini.retryDefault (service i)))).
      rewrite seq_nth by exact Hi. cbn [Nat.add]. now rewrite Hrun.
    + unfold Gemini.generateSingle. now rewrite Hrun.
  - pose proof (total_map_bounds
                  (fun i => Gemini.calls (Gemini.retryDefault (service i))) 1 4 (seq 0 n)
                  (fun i => proj1 (retryDefault_calls (service i)))) as Hb.
    rewrite length_seq in Hb. lia.
  - pose proof (total_map_ones
                  (fun i => Gemini.calls (Gemini.retryDefault (service i))) (seq 0 n)
                  (fun i => proj1 (proj1 (retryDefault_calls (service i))))) as Hone.
    rewrite length_seq in Hone. rewrite Hone. split.
    + intros H i Hi. apply retryDefault_calls. apply H. apply in_seq. lia.
    + intros H i Hi. apply retryDefault_calls. apply H. apply in_seq in Hi. lia.
  - exact Hfst.
  - unfold Gemini.generateImage, Gemini.requests, Gemini.safeCount.
    apply nonNull_omap.
  - rewrite <- Hlen. unfold Gemini.generateImage. apply length_nonNull.
Qed.

(** Two requests asked for; the first is served after one overload
    error, the second answers without an image. *)
Example generateImage_partial :
  Gemini.generateImage 2
    (fun i n =>
       match i, n with
       | O, O => Gemini.Rejected busy
       | O, _ => Gemini.Resolved [Gemini.mkPart None; Gemini.mkPart (Some "QUJD")]
       | _, _ => Gemini.Resolved [Gemini.mkPart None]
       end)
    = ["data:image/png;base64,QUJD"].
Proof. reflexivity. Qed.

(** ** The streaming assembler *)

Section Streaming.

Import Stream.

Lemma concat_snoc (done : list (string * Z)) (f : string * Z) :
  concat (done ++ [f]) = concat done ++ fst f.
Proof.
  induction done as [|g done IH]; simpl.
  - apply app_empty_r.
  - rewrite IH. symmetry. apply app_assoc_s.
Qed.

Lemma assembled_start : assembled [] start.
Proof. split; [reflexivity|]. exists 0%nat. split; [simpl; lia | reflexivity]. Qed.

Lemma assembled_onChunk (done : list (string * Z)) (s : Session) (f : string * Z) :
  assembled done s -> assembled (done ++ [f]) (onChunk s f).
Proof.
  intros [Hb (k & Hk & Hg)]. destruct f as [chunk now]. unfold onChunk.
  destruct (now - lastUpdateTime s >? RENDER_THROTTLE_MS); split; cbn.
  - rewrite concat_snoc, Hb. reflexivity.
  - exists (length (done ++ [(chunk, now)])). split; [lia|].
    rewrite firstn_all, concat_snoc, Hb. reflexivity.
  - rewrite concat_snoc, Hb. reflexivity.
  - exists k. split; [rewrite length_app; lia|].
    rewrite Hg. f_equal. symmetry.
    rewrite firstn_app. replace (k - length done)%nat with 0%nat by lia.
    simpl. apply app_nil_r.
Qed.

Lemma assembled_deliver (fragments : list (string * Z)) :
  assembled fragments (deliver fragments).
Proof.
  unfold deliver.
  induction fragments as [|f done IH] using rev_ind.
  - apply assembled_start.
  - rewrite fold_left_app. simpl. now apply assembled_onChunk.
Qed.

Lemma deliver_snoc (done : list (string * Z)) (f : string * Z) :
  deliver (done ++ [f]) = onChunk (deliver done) f.
Proof. unfold deliver. now rewrite fold_left_app. Qed.

Lemma deliver_take_S (fragments : list (string * Z)) (i : nat) (f : string * Z) :
  fragments !! i = Some f ->
  deliver (firstn (S i) fragments) = onChunk (deliver (firstn i fragments)) f.
Proof. intros H. now rewrite (take_S_r _ _ _ H), deliver_snoc. Qed.

Lemma arrival_app (done more : list (string * Z)) (k : nat) :
  (k <= length done)%nat -> arrival (done ++ more) k = arrival done k.
Proof.
  destruct k as [|k]; [reflexivity|]. intros Hk. unfold arrival.
  now rewrite lookup_app_l by lia.
Qed.

Lemma arrival_last (done : list (string * Z)) (f : string * Z) :
  arrival (done ++ [f]) (S (length done)) = snd f.
Proof. unfold arrival. now rewrite list_lookup_middle. Qed.

(** What the arrivals leave behind: the text of the fragments up to the
    last one that passed the throttle, and the time of that one. *)
Lemma last_flush (fragments : list (string * Z)) :
  exists k : nat,
    (k <= length fragments)%nat /\
    generatedContent (deliver fragments) = concat (firstn k fragments) /\
    (k = 0%nat \/
     RENDER_THROTTLE_MS
       < arrival fragments k - lastUpdateTime (deliver (firstn (k - 1) fragments))) /\
    lastUpdateTime (deliver fragments) = arrival fragments k /\
    (forall j : nat, (k < j <= length fragments)%nat ->
       arrival fragments j - arrival fragments k <= RENDER_THROTTLE_MS).
Proof.
  induction fragments as [|[chunk now] done IH] using rev_ind.
  - exists 0%nat. split; [simpl; lia|]. split; [reflexivity|].
    split; [now left|]. split; [reflexivity|]. simpl. lia.
  - destruct IH as (k & Hk & Htext & Hflush & Htime & Hlater).
    pose proof (assembled_deliver done) as [Hbuf _].
    rewrite deliver_snoc, length_app. cbn [length]. unfold onChunk.
    destruct (now - lastUpdateTime (deliver done) >? RENDER_THROTTLE_MS) eqn:E.
    + exists (S (length done)). split; [lia|].
      cbn [generatedContent lastUpdateTime]. split; [|split; [|split]].
      * rewrite firstn_all2 by (rewrite length_app; simpl; lia).
        now rewrite concat_snoc, Hbuf.
      * right. rewrite arrival_last. cbn [snd].
        replace (S (length done) - 1)%nat with (length done) by lia.
        rewrite take_app_length. apply Z.gtb_lt in E. lia.
      * now rewrite arrival_last.
      * intros j Hj. lia.
    + exists k. split; [lia|].
      cbn [generatedContent lastUpdateTime]. split; [|split; [|split]].
      * rewrite Htext. f_equal. symmetry. now apply take_app_le.
      * destruct Hflush as [->|Hflush]; [now left|]. right.
        rewrite arrival_app by exact Hk.
        now rewrite take_app_le by lia.
      * now rewrite arrival_app by exact Hk.
      * intros j Hj. rewrite (arrival_app _ _ k) by exact Hk.
        destruct (Nat.eq_dec j (S (length done))) as [->|Hne].
        -- rewrite arrival_last. cbn [snd]. rewrite <- Htime.
           destruct (Z.gtb_spec (now - lastUpdateTime (deliver done)) RENDER_THROTTLE_MS);
             [discriminate | lia].
        -- rewrite arrival_app by lia. apply Hlater. lia.
Qed.

End Streaming.

(** C1, as the claim states it, fails when the stream ends with an error:
    two fragments arrive 10 ms apart and the stream then rejects; the
    visible text is the first fragment only. *)
Lemma stream_error_loses_fragment :
  Stream.generatedContent
    (Stream.handleGenerate [("a", 1000); ("b", 1010)] Stream.Failed) = "a" /\
  Stream.concat [("a", 1000); ("b", 1010)] = "ab" /\
  Stream.generatedContent
    (Stream.handleGenerate [("a", 1000); ("b", 1010)] Stream.Failed)
    <> Stream.concat [("a", 1000); ("b", 1010)].
Proof. split; [reflexivity|]. split; [reflexivity|]. discriminate. Qed.

(** C1, amended.  Every fragment is appended to the buffer when it
    arrives, so the buffer is the concatenation of the fragments
    delivered, whatever their timing.  When the stream completes, the
    visible text is set to the buffer: it is exactly the concatenation of
    all fragments.  When the stream ends with an error there is no final
    flush: the visible text is what it was when the last fragment had
    arrived, which is what the last throttled flush made it.  That is the
    concatenation of the first [k] fragments, where fragment [k] is the
    last one that arrived more than 32 ms after the flush before it (the
    session remembers its time), and every later fragment arrived within
    32 ms of it; [k] is 0 and the text empty when no fragment passed the
    throttle.  Nothing is duplicated or reordered, but the fragments
    after the last flush are not shown. *)
Theorem stream_text_after_end (fragments : list (string * Z)) :
  (forall s f, Stream.contentBuffer (Stream.onChunk s f)
               = Stream.contentBuffer s ++ fst f) /\
  Stream.contentBuffer (Stream.deliver fragments) = Stream.concat fragments /\
  Stream.generatedContent (Stream.handleGenerate fragments Stream.Completed)
    = Stream.concat fragments /\
  Stream.contentBuffer (Stream.handleGenerate fragments Stream.Failed)
    = Stream.concat fragments /\
  Stream.generatedContent (Stream.handleGenerate fragments Stream.Failed)
    = shownAfter fragments (length fragments) /\
  exists k : nat,
    (k <= length fragments)%nat /\
    Stream.generatedContent (Stream.handleGenerate fragments Stream.Failed)
      = Stream.concat (firstn k fragments) /\
    (k = 0%nat \/
     Stream.RENDER_THROTTLE_MS
       < arrival fragments k
         - Stream.lastUpdateTime (Stream.deliver (firstn (k - 1) fragments))) /\
    Stream.lastUpdateTime (Stream.handleGenerate fragments Stream.Failed)
      = arrival fragments k /\
    (forall j : nat, (k < j <= length fragments)%nat ->
       arrival fragments j - arrival fragments k <= Stream.RENDER_THROTTLE_MS).
Proof.
  destruct (assembled_deliver fragments) as [Hb _].
  split; [|split; [|split; [|split; [|split]]]].
  - intros s [chunk now]. unfold Stream.onChunk.
    now destruct (now - Stream.lastUpdateTime s >? Stream.RENDER_THROTTLE_MS).
  - exact Hb.
  - exact Hb.
  - exact Hb.
  - unfold shownAfter. now rewrite firstn_all.
  - exact (last_flush fragments).
Qed.

(** ** The image set *)

Section ImageSet.

Import Images.

Lemma index_Some {A} (xs : list A) (i : Z) (x : A) :
  Js.index xs i = Some x <-> 0 <= i /\ xs !! Z.to_nat i = Some x.
Proof.
  unfold Js.index. destruct (Z.ltb_spec i 0); split.
  - discriminate.
  - intros [? _]. lia.
  - intros E. split; [lia | exact E].
  - now intros [_ E].
Qed.

Lemma index_None {A} (xs : list A) (i : Z) :
  Js.index xs i = None <-> i < 0 \/ Z.of_nat (length xs) <= i.
Proof.
  unfold Js.index. destruct (Z.ltb_spec i 0); split.
  - now left.
  - reflexivity.
  - intros E. right. apply lookup_ge_None in E. lia.
  - intros [?|?]; [lia|]. apply lookup_ge_None. lia.
Qed.

Lemma truthy_nonempty (s : string) : Js.truthy s = true <-> s <> "".
Proof. destruct s; simpl; split; congruence. Qed.

Lemma currentImageUrl_Some (st : State) (url : string) :
  currentImageUrl st = Some url <->
  Js.index (generatedImageUrls st) (selectedImageIndex st) = Some url /\ url <> "".
Proof.
  unfold currentImageUrl.
  destruct (Js.index _ _) as [u|]; [|split; [discriminate | now intros [? _]]].
  destruct u as [|c u]; simpl; split.
  - discriminate.
  - intros [E Hne]. inversion E. subst. congruence.
  - intros E. inversion E. split; [reflexivity | discriminate].
  - now intros [E _].
Qed.

(** Generating a set leaves a valid selection. *)
Lemma handleGenerateImage_valid (st : State) (urls : list string) :
  selection_valid (handleGenerateImage st urls).
Proof.
  unfold selection_valid, handleGenerateImage.
  destruct urls as [|u urls]; simpl; [congruence | lia].
Qed.

(** A click on a thumbnail leaves a valid selection. *)
Lemma thumbnail_valid (st : State) (idx : Z) :
  In idx (thumbnails st) -> selection_valid (setSelectedImageIndex idx st).
Proof.
  unfold thumbnails, selection_valid. intros Hin _. simpl.
  destruct (currentImageUrl st); [|contradiction].
  destruct (1 <? Z.of_nat (length (generatedImageUrls st))); [|contradiction].
  apply in_map_iff in Hin as (n & <- & Hn). apply in_seq in Hn. lia.
Qed.

(** An edit keeps a valid selection valid. *)
Lemma handleEditImage_valid (st : State) (prompt : string) (r : EditResult) :
  selection_valid st -> selection_valid (handleEditImage st prompt r).
Proof.
  intros Hv. unfold handleEditImage.
  destruct (currentImageUrl st); [|exact Hv].
  destruct (negb (Js.truthy prompt)); [exact Hv|].
  destruct r as [[newUrl|]|]; try exact Hv.
  destruct (Js.truthy newUrl); [|exact Hv].
  unfold selection_valid in *. simpl. rewrite length_insert. intros Hne.
  apply Hv. intros E. rewrite E in Hne. now destruct (Z.to_nat _).
Qed.

End ImageSet.

(** C3.  The code at the input that breaks the invariant: four images
    are generated, the fourth thumbnail is clicked, then a saved article
    with a cover image is opened.  The image list is replaced by the one
    cover image and the selection stays 3: it is out of range, and the
    current image reads as null although the list holds an image. *)
Theorem openArticle_leaves_stale_selection :
  let st := Images.setSelectedImageIndex 3
              (Images.handleGenerateImage Images.initial ["u0"; "u1"; "u2"; "u3"]) in
  In 3 (Images.thumbnails
          (Images.handleGenerateImage Images.initial ["u0"; "u1"; "u2"; "u3"])) /\
  Images.selection_valid st /\
  Images.openArticle st (Some "cover") = Images.mkState ["cover"] 3 /\
  ~ Images.selection_valid (Images.openArticle st (Some "cover")) /\
  Images.currentImageUrl (Images.openArticle st (Some "cover")) = None.
Proof.
  cbv zeta. split; [|split; [|split; [|split]]].
  - simpl. tauto.
  - intros _. cbn. lia.
  - reflexivity.
  - intros H. unfold Images.selection_valid in H. cbn in H.
    assert (Hne : ["cover"] <> @nil string) by discriminate.
    specialize (H Hne). lia.
  - reflexivity.
Qed.

(** C4, as the claim states it, fails: selecting the index [k] or [-1] on
    a list of [k = 2] images is not refused; the index is stored and the
    state changes. *)
Lemma select_out_of_range_is_stored :
  Images.setSelectedImageIndex 2 (Images.mkState ["a"; "b"] 0)
    = Images.mkState ["a"; "b"] 2 /\
  Images.setSelectedImageIndex (-1) (Images.mkState ["a"; "b"] 0)
    = Images.mkState ["a"; "b"] (-1) /\
  Images.setSelectedImageIndex 2 (Images.mkState ["a"; "b"] 0)
    <> Images.mkState ["a"; "b"] 0 /\
  Images.setSelectedImageIndex (-1) (Images.mkState ["a"; "b"] 0)
    <> Images.mkState ["a"; "b"] 0.
Proof. repeat split; discriminate. Qed.

(** C4, amended.  Selecting an index stores it: reading
    [selectedImageIndex] afterwards returns it, and the image list is
    untouched.  The gallery, shown only while there is a current image
    and more than one image, offers exactly the positions of the list,
    so a click always selects a valid index.  The setter has no range
    check and signals nothing: an index outside the list is stored as
    well; the current image then reads as null and the gallery is not
    shown. *)
Theorem select_stores_index (st : Images.State) (i : Z) :
  Images.selectedImageIndex (Images.setSelectedImageIndex i st) = i /\
  Images.generatedImageUrls (Images.setSelectedImageIndex i st)
    = Images.generatedImageUrls st /\
  (forall j, In j (Images.thumbnails st) <->
             Images.currentImageUrl st <> None /\
             1 < Z.of_nat (length (Images.generatedImageUrls st)) /\
             0 <= j < Z.of_nat (length (Images.generatedImageUrls st))) /\
  (In i (Images.thumbnails st) ->
   Images.selection_valid (Images.setSelectedImageIndex i st)) /\
  (i < 0 \/ Z.of_nat (length (Images.generatedImageUrls st)) <= i ->
   Images.currentImageUrl (Images.setSelectedImageIndex i st) = None /\
   Images.thumbnails (Images.setSelectedImageIndex i st) = []).
Proof.
  assert (Hth : forall j, In j (Images.thumbnails st) <->
                Images.currentImageUrl st <> None /\
                1 < Z.of_nat (length (Images.generatedImageUrls st)) /\
                0 <= j < Z.of_nat (length (Images.generatedImageUrls st))).
  { intros j. unfold Images.thumbnails.
    destruct (Images.currentImageUrl st) as [u|];
      [|simpl; split; [tauto | intros [H _]; now apply H]].
    destruct (Z.ltb_spec 1 (Z.of_nat (length (Images.generatedImageUrls st)))).
    - rewrite in_map_iff. split.
      + intros (n & <- & Hn). apply in_seq in Hn.
        split; [discriminate | lia].
      + intros (_ & _ & Hj). exists (Z.to_nat j). split; [lia|]. apply in_seq. lia.
    - simpl. split; [tauto | lia]. }
  split; [reflexivity|]. split; [reflexivity|]. split; [exact Hth|]. split.
  - apply thumbnail_valid.
  - intros Hout.
    assert (Hnone : Images.currentImageUrl (Images.setSelectedImageIndex i st) = None).
    { unfold Images.currentImageUrl. simpl.
      apply index_None in Hout. now rewrite Hout. }
    split; [exact Hnone|]. unfold Images.thumbnails. now rewrite Hnone.
Qed.

(** C8.  A successful edit of the current image writes the new image
    over the selected slot and nothing else: the selection is the same,
    the list is as long as before, the selected position holds the new
    image, and every other position holds what it held. *)
Theorem handleEditImage_changes_only_selected_slot
    (st : Images.State) (cur prompt newUrl : string) :
  Images.currentImageUrl st = Some cur ->
  prompt <> "" -> newUrl <> "" ->
  let st' := Images.handleEditImage st prompt (Images.Edited (Some newUrl)) in
  Images.selectedImageIndex st' = Images.selectedImageIndex st /\
  length (Images.generatedImageUrls st') = length (Images.generatedImageUrls st) /\
  0 <= Images.selectedImageIndex st
    < Z.of_nat (length (Images.generatedImageUrls st)) /\
  Js.index (Images.generatedImageUrls st') (Images.selectedImageIndex st)
    = Some newUrl /\
  forall j : Z, j <> Images.selectedImageIndex st ->
    Js.index (Images.generatedImageUrls st') j
      = Js.index (Images.generatedImageUrls st) j.
Proof.
  intros Hcur Hp Hn. cbv zeta.
  unfold Images.handleEditImage. rewrite Hcur.
  apply truthy_nonempty in Hp. apply truthy_nonempty in Hn.
  rewrite Hp, Hn. cbn [negb Images.selectedImageIndex Images.generatedImageUrls].
  apply currentImageUrl_Some in Hcur as [Hi _].
  apply index_Some in Hi as [H0 Hl].
  pose proof (lookup_lt_Some _ _ _ Hl) as Hlt.
  repeat split.
  - apply length_insert.
  - exact H0.
  - lia.
  - apply index_Some. split; [exact H0|].
    now apply list_lookup_insert_eq.
  - intros j Hj. unfold Js.index. destruct (j <? 0) eqn:Ej; [reflexivity|].
    apply list_lookup_insert_ne. apply Z.ltb_ge in Ej. lia.
Qed.

(** The theorem at an edit of the second of three images. *)
Lemma handleEditImage_changes_only_selected_slot_witness :
  (Images.currentImageUrl (Images.mkState ["a"; "b"; "c"] 1) = Some "b" /\
   "brighter" <> "" /\ "b2" <> "") /\
  Images.handleEditImage (Images.mkState ["a"; "b"; "c"] 1) "brighter"
                         (Images.Edited (Some "b2"))
    = Images.mkState ["a"; "b2"; "c"] 1 /\
  Js.index
    (Images.generatedImageUrls
       (Images.handleEditImage (Images.mkState ["a"; "b"; "c"] 1) "brighter"
                               (Images.Edited (Some "b2")))) 1 = Some "b2".
Proof.
  assert (H : Images.currentImageUrl (Images.mkState ["a"; "b"; "c"] 1) = Some "b" /\
              "brighter" <> "" /\ "b2" <> "")
    by (repeat split; discriminate).
  split; [exact H|]. split; [reflexivity|].
  destruct H as (H1 & H2 & H3).
  exact (proj1 (proj2 (proj2 (proj2
    (handleEditImage_changes_only_selected_slot
       (Images.mkState ["a"; "b"; "c"] 1) "b" "brighter" "b2" H1 H2 H3))))).
Defined.

(** C10.  Reading the current image is defined for every image list and
    every integer index.  It yields a url exactly when the index is a
    position of the list and the url there is not the empty string, and
    it is that url; it yields null for a negative index, for an index at
    or past the end, and so for every index of the empty list.  On a list
    without empty strings, which is all the producers make, it is the
    element at the index when there is one and null otherwise. *)
Theorem currentImageUrl_total (urls : list string) (i : Z) :
  let st := Images.mkState urls i in
  (forall url, Images.currentImageUrl st = Some url <->
               0 <= i < Z.of_nat (length urls) /\
               urls !! Z.to_nat i = Some url /\ url <> "") /\
  (i < 0 \/ Z.of_nat (length urls) <= i -> Images.currentImageUrl st = None) /\
  (urls = [] -> Images.currentImageUrl st = None) /\
  (Forall (fun u => u <> "") urls ->
   Images.currentImageUrl st = Js.index urls i) /\
  (Images.currentImageUrl st = None \/
   exists url, Images.currentImageUrl st = Some url /\ In url urls /\ url <> "").
Proof.
  cbv zeta.
  assert (HS : forall url, Images.currentImageUrl (Images.mkState urls i) = Some url <->
               0 <= i < Z.of_nat (length urls) /\
               urls !! Z.to_nat i = Some url /\ url <> "").
  { intros url. rewrite currentImageUrl_Some. simpl. rewrite index_Some. split.
    - intros [[H0 Hl] Hne]. pose proof (lookup_lt_Some _ _ _ Hl). repeat split; trivial; lia.
    - intros [[H0 _] [Hl Hne]]. repeat split; trivial. }
  assert (HN : i < 0 \/ Z.of_nat (length urls) <= i ->
               Images.currentImageUrl (Images.mkState urls i) = None).
  { intros Hout. unfold Images.currentImageUrl. simpl.
    apply index_None in Hout. now rewrite Hout. }
  split; [exact HS|]. split; [exact HN|]. split; [|split].
  - intros ->. apply HN. simpl. lia.
  - intros Hall. unfold Images.currentImageUrl. simpl.
    destruct (Js.index urls i) as [u|] eqn:E; [|reflexivity].
    apply index_Some in E as [_ El].
    rewrite Forall_forall in Hall.
    assert (Hu : u <> "") by (apply Hall; eapply list_elem_of_lookup_2; eauto).
    apply truthy_nonempty in Hu. now rewrite Hu.
  - destruct (Images.currentImageUrl (Images.mkState urls i)) as [u|] eqn:E; [right | now left].
    exists u. split; [reflexivity|].
    destruct (proj1 (HS u) eq_refl) as (_ & El & Hne).
    split; [|exact Hne]. apply list_elem_of_In; eapply list_elem_of_lookup_2; eauto.
Qed.

(** ** Tables in the preview *)

Section Tables.

Import Preview.

Lemma flushList_listBuffer (v : View) : listBuffer (flushList v) = [].
Proof. unfold flushList. destruct (listBuffer v) eqn:E; [exact E | reflexivity]. Qed.

Lemma flushList_tableBuffer (v : View) : tableBuffer (flushList v) = tableBuffer v.
Proof. unfold flushList. now destruct (listBuffer v). Qed.

Lemma flushList_empty (v : View) : listBuffer v = [] -> flushList v = v.
Proof. unfold flushList. now intros ->. Qed.

Lemma step_table_line (v : View) (line : string) :
  isTableLine line = true -> step v line = accumulated v [line].
Proof.
  unfold isTableLine, step, accumulated. intros ->.
  now rewrite flushList_listBuffer, flushList_tableBuffer.
Qed.

Lemma accumulated_more (v : View) (r : string) (rows : list string) :
  accumulated (accumulated v [r]) rows = accumulated v (r :: rows).
Proof.
  unfold accumulated at 1.
  rewrite (flushList_empty (accumulated v [r])) by reflexivity.
  unfold accumulated. simpl. now rewrite <- app_assoc.
Qed.

(** Consecutive table rows pile up in the buffer. *)
Lemma table_run (rows : list string) :
  forall v : View,
    rows <> [] -> Forall (fun l => isTableLine l = true) rows ->
    fold_left step rows v = accumulated v rows.
Proof.
  induction rows as [|r rows IH]; intros v Hne Hall; [congruence|].
  apply Forall_cons in Hall as [Hr Hall]. simpl.
  rewrite (step_table_line v r Hr).
  destruct rows as [|r' rows'] eqn:E; [reflexivity|].
  rewrite IH by (trivial; congruence). apply accumulated_more.
Qed.

Lemma flushTable_accumulated (v : View) (rows : list string) :
  tableBuffer v = [] -> rows <> [] ->
  flushTable (accumulated v rows) = flushed v rows.
Proof.
  intros Hb Hne. destruct rows as [|r rows]; [congruence|].
  unfold flushTable, accumulated, flushed. rewrite Hb. simpl.
  destruct (renderTable (Js.trim r :: List.map Js.trim rows)); simpl;
    [reflexivity | now rewrite app_nil_r].
Qed.

End Tables.

(** C5.  Table rows in the preview.  From a view whose table buffer is
    empty, a run of lines whose trimmed form starts with a bar piles up,
    trimmed, in the buffer and adds no element.  The first line that is
    no table row flushes the buffer before it is handled, and so does the
    end of the input.  The flush adds no block for fewer than two rows;
    otherwise it adds one table whose header is the cells of the first
    row and whose body is the cells of the rows from the third on, the
    second row being dropped; the cells of a row are its pieces between
    bars, trimmed, without the empty ones, and a body row without cells
    is left out.  The three lines of the example give one table with the
    header A, B and the one body row 1, 2. *)
Theorem table_rows_accumulate_and_flush (v : Preview.View) (rows : list string) :
  Preview.tableBuffer v = [] ->
  rows <> [] ->
  Forall (fun l => isTableLine l = true) rows ->
  let v' := fold_left Preview.step rows v in
  (Preview.tableBuffer v' = List.map Js.trim rows /\
   Preview.inTable v' = true /\
   Preview.elements v' = Preview.elements (Preview.flushList v)) /\
  (forall line, isTableLine line = false ->
     Preview.step v' line = Preview.step (flushed v rows) line) /\
  Preview.finish v'
    = (Preview.elements (Preview.flushList v)
         ++ blockOf (Preview.renderTable (List.map Js.trim rows)))%list /\
  ((length rows < 2)%nat -> Preview.renderTable (List.map Js.trim rows) = None) /\
  (forall h sep body, rows = h :: sep :: body ->
     Preview.renderTable (List.map Js.trim rows)
       = Some (Preview.Table
                 (parseRow (Js.trim h))
                 (List.filter hasCells (List.map parseRow (List.map Js.trim body))))) /\
  (forall row, parseRow row
               = List.filter nonEmpty (List.map Js.trim (Js.split "|" row))) /\
  (forall row cell, In cell (parseRow row) -> cell <> "") /\
  Preview.MarkdownView ("| A | B |" ++ LF ++ "|---|---|" ++ LF ++ "| 1 | 2 |")
    = Some [Preview.Table ["A"; "B"] [["1"; "2"]]].
Proof.
  intros Hb Hne Hall. cbv zeta.
  rewrite (table_run rows v Hne Hall).
  split; [|split; [|split; [|split; [|split; [|split; [|split]]]]]].
  - unfold accumulated. cbn. now rewrite Hb.
  - intros line Hline. unfold isTableLine in Hline.
    unfold Preview.step. rewrite Hline.
    change (Preview.inTable (accumulated v rows)) with true.
    change (Preview.inTable (flushed v rows)) with false.
    cbv iota. now rewrite flushTable_accumulated.
  - unfold Preview.finish.
    rewrite (flushList_empty (accumulated v rows)) by reflexivity.
    now rewrite flushTable_accumulated.
  - intros Hlen. unfold Preview.renderTable. rewrite length_map.
    destruct (Z.ltb_spec (Z.of_nat (length rows)) 2); [reflexivity | lia].
  - intros h sep body ->. unfold Preview.renderTable.
    destruct (Z.ltb_spec
                (Z.of_nat (length (List.map Js.trim (h :: sep :: body)))) 2)
      as [Hlt|_]; [simpl in Hlt; lia | reflexivity].
  - reflexivity.
  - intros row cell Hin. unfold parseRow in Hin.
    apply filter_In in Hin as [_ Hc]. now apply truthy_nonempty.
  - reflexivity.
Qed.

(** The theorem at the three lines of the example, from the initial view. *)
Lemma table_rows_accumulate_and_flush_witness :
  (Preview.tableBuffer Preview.initial = [] /\
   ["| A | B |"; "|---|---|"; "| 1 | 2 |"] <> [] /\
   Forall (fun l => isTableLine l = true) ["| A | B |"; "|---|---|"; "| 1 | 2 |"]) /\
  Preview.finish
    (fold_left Preview.step ["| A | B |"; "|---|---|"; "| 1 | 2 |"] Preview.initial)
    = [Preview.Table ["A"; "B"] [["1"; "2"]]].
Proof.
  assert (H : Preview.tableBuffer Preview.initial = [] /\
              ["| A | B |"; "|---|---|"; "| 1 | 2 |"] <> [] /\
              Forall (fun l => isTableLine l = true)
                     ["| A | B |"; "|---|---|"; "| 1 | 2 |"]).
  { split; [reflexivity|]. split; [discriminate|].
    repeat constructor. }
  split; [exact H|]. destruct H as (H1 & H2 & H3).
  exact (proj1 (proj2 (proj2
    (table_rows_accumulate_and_flush Preview.initial
       ["| A | B |"; "|---|---|"; "| 1 | 2 |"] H1 H2 H3)))).
Defined.

(** Two more lines of the preview: a list whose second item is bold, and
    an image. *)
Example preview_list_with_bold :
  Preview.MarkdownView ("- item one" ++ LF ++ "- **item two**")
    = Some [Preview.Ul [[Preview.Text "item one"];
                        [Preview.Text ""; Preview.Strong "item two"; Preview.Text ""]]].
Proof. reflexivity. Qed.

Example preview_image :
  Preview.MarkdownView "![a cat](http://x/y.png)"
    = Some [Preview.Img "http://x/y.png" "a cat" (Some "a cat")].
Proof. reflexivity. Qed.

(** ** The export against the preview *)

(** Where the two renderers agree: a heading, a table, a list with a bold
    run, an image and a paragraph. *)
Example export_matches_preview_sample :
  let text := "# T" ++ LF ++ "| A | B |" ++ LF ++ "|---|---|" ++ LF ++ "| 1 | 2 |"
              ++ LF ++ "- x **y**" ++ LF ++ "![cat](c.png)" ++ LF ++ "done" in
  Preview.MarkdownView text
    = Some [Preview.H1 "T";
            Preview.Table ["A"; "B"] [["1"; "2"]];
            Preview.Ul [[Preview.Text "x "; Preview.Strong "y"; Preview.Text ""]];
            Preview.Img "c.png" "cat" (Some "cat");
            Preview.P [Preview.Text "done"]] /\
  HtmlExport.generateHtmlBody None text
    = "<h1>T</h1>"
      ++ "<table><thead><tr><th>A</th><th>B</th></tr></thead>"
      ++ "<tbody><tr><td>1</td><td>2</td></tr></tbody></table>"
      ++ "<ul><li>x <strong>y</strong></li></ul>"
      ++ HtmlExport.imageHtml "cat" "c.png"
      ++ "<p>done</p>".
Proof. split; reflexivity. Qed.

(** C2.  The code at the inputs where the export and the preview part.
    A line that starts like an image but does not match the image
    pattern is a paragraph in the preview and nothing in the export,
    whose image branch returns whether or not the pattern matched.  A
    table of a single row is no block in the preview and an empty table
    in the export.  Two list items with a blank line between them are two
    lists in the preview and one list in the export. *)
Theorem export_parts_from_preview :
  (Preview.MarkdownView "![oops" = Some [Preview.P [Preview.Text "![oops"]] /\
   HtmlExport.generateHtmlBody None "![oops" = "") /\
  (Preview.MarkdownView "| A |" = Some [] /\
   HtmlExport.generateHtmlBody None "| A |" = "<table></table>") /\
  (Preview.MarkdownView ("- a" ++ LF ++ LF ++ "- b")
     = Some [Preview.Ul [[Preview.Text "a"]]; Preview.Ul [[Preview.Text "b"]]] /\
   HtmlExport.generateHtmlBody None ("- a" ++ LF ++ LF ++ "- b")
     = "<ul><li>a</li><li>b</li></ul>").
Proof. repeat split. Qed.

(** ** More on strings: reversal, trimming, splitting *)

Section TrimAndSplit.

Lemma rev_acc_app (s acc : string) : Js.rev_acc s acc = Js.rev s ++ acc.
Proof.
  unfold Js.rev. revert acc.
  induction s as [|c s IH]; intros acc; simpl; [reflexivity|].
  rewrite (IH (String c acc)), (IH (String c "")).
  now rewrite app_assoc_s.
Qed.

Lemma rev_cons (c : ascii) (s : string) :
  Js.rev (String c s) = Js.rev s ++ String c "".
Proof. unfold Js.rev at 1. simpl. apply rev_acc_app. Qed.

Lemma rev_app (s t : string) : Js.rev (s ++ t) = Js.rev t ++ Js.rev s.
Proof.
  induction s as [|c s IH]; simpl.
  - symmetry. apply app_empty_r.
  - rewrite !rev_cons, IH. apply app_assoc_s.
Qed.

Lemma rev_rev (s : string) : Js.rev (Js.rev s) = s.
Proof.
  induction s as [|c s IH]; [reflexivity|].
  rewrite rev_cons, rev_app, IH. reflexivity.
Qed.

Lemma trimStart_head (c : ascii) (s : string) :
  Js.is_ws c = false -> Js.trimStart (String c s) = String c s.
Proof. intros H. simpl. now rewrite H. Qed.

(** Trimming on the left keeps a last code unit that is no white space. *)
Lemma trimStart_last (x : string) (c : ascii) :
  Js.is_ws c = false ->
  exists y, Js.trimStart (x ++ String c "") = y ++ String c "".
Proof.
  intros Hc. induction x as [|a x IH]; simpl.
  - rewrite Hc. now exists "".
  - destruct (Js.is_ws a); [exact IH|]. now exists (String a x).
Qed.

(** Trimming keeps a first code unit that is no white space. *)
Lemma trim_head (c : ascii) (s : string) :
  Js.is_ws c = false -> exists t, Js.trim (String c s) = String c t.
Proof.
  intros Hc. unfold Js.trim, Js.trimEnd.
  rewrite (trimStart_head c s Hc), rev_cons.
  destruct (trimStart_last (Js.rev s) c Hc) as [y ->].
  rewrite rev_app. simpl. now exists (Js.rev y).
Qed.

(** A tight text is its own trimmed form. *)
Lemma trim_tight (s : string) : tight s = true -> Js.trim s = s.
Proof.
  unfold tight. destruct s as [|a s]; [discriminate|].
  destruct (Js.rev (String a s)) as [|z r] eqn:Er; [discriminate|].
  intros H. apply andb_true_iff in H as [Ha Hz].
  apply negb_true_iff in Ha, Hz.
  unfold Js.trim, Js.trimEnd. rewrite (trimStart_head a s Ha), Er.
  rewrite (trimStart_head z r Hz), <- Er. apply rev_rev.
Qed.

(** White space around a tight text is trimmed away, and nothing else. *)
Lemma trim_padded (l r s : string) :
  every Js.is_ws l = true -> every Js.is_ws r = true -> tight s = true ->
  Js.trim (l ++ s ++ r) = s.
Proof.
  intros Hl Hr Hs.
  assert (Hstart : forall l t, every Js.is_ws l = true ->
                     Js.trimStart (l ++ t) = Js.trimStart t).
  { clear. induction l as [|c l IH]; intros t H; simpl in *; [reflexivity|].
    apply andb_true_iff in H as [Hc Hl]. rewrite Hc. now apply IH. }
  assert (Hrev : forall r, every Js.is_ws r = true -> every Js.is_ws (Js.rev r) = true).
  { clear - Hstart. induction r as [|c r IH]; intros H; [reflexivity|].
    simpl in H. apply andb_true_iff in H as [Hc Hr].
    rewrite rev_cons.
    assert (Happ : forall a b, every Js.is_ws a = true -> every Js.is_ws b = true ->
                     every Js.is_ws (a ++ b) = true).
    { clear. induction a as [|x a IHa]; intros b Ha Hb; simpl in *; [exact Hb|].
      apply andb_true_iff in Ha as [Hx Ha]. rewrite Hx. now apply IHa. }
    apply Happ; [now apply IH | simpl; now rewrite Hc]. }
  pose proof (trim_tight s Hs) as Ht.
  unfold tight in Hs. destruct s as [|a s]; [discriminate|].
  destruct (Js.rev (String a s)) as [|z q] eqn:Er; [discriminate|].
  apply andb_true_iff in Hs as [Ha Hz]. apply negb_true_iff in Ha, Hz.
  unfold Js.trim, Js.trimEnd.
  rewrite (Hstart l _ Hl).
  change (String a s ++ r) with (String a (s ++ r)).
  rewrite (trimStart_head a (s ++ r) Ha).
  change (String a (s ++ r)) with (String a s ++ r).
  rewrite rev_app, (Hstart (Js.rev r) _ (Hrev r Hr)), Er.
  rewrite (trimStart_head z q Hz), <- Er. apply rev_rev.
Qed.

Lemma split_cons (c : ascii) (s : string) :
  exists p ps, Js.split c s = p :: ps.
Proof.
  induction s as [|a s (p & ps & E)]; simpl.
  - now exists "", [].
  - destruct (Ascii.eqb a c); [now exists "", (Js.split c s)|].
    rewrite E. now exists (String a p), ps.
Qed.

(** Splitting a text that holds the separator: the pieces before it, then
    the pieces after it. *)
Lemma split_app (c : ascii) (s t : string) :
  Js.split c (s ++ String c t) = (Js.split c s ++ Js.split c t)%list.
Proof.
  induction s as [|a s IH]; simpl.
  - now rewrite Ascii.eqb_refl.
  - destruct (Ascii.eqb a c); [now rewrite IH|].
    rewrite IH. destruct (split_cons c s) as (p & ps & ->). reflexivity.
Qed.

(** A text without the separator is one piece. *)
Lemma split_none (c : ascii) (s : string) :
  every (isNot c) s = true -> Js.split c s = [s].
Proof.
  induction s as [|a s IH]; simpl; [reflexivity|].
  intros H. apply andb_true_iff in H as [Ha Hs].
  unfold isNot in Ha. apply negb_true_iff in Ha.
  rewrite Ascii.eqb_sym, Ha, (IH Hs). reflexivity.
Qed.

Lemma substring_from_app (p t : string) : Js.substring_from (p ++ t) (Js.len p) = t.
Proof.
  unfold Js.substring_from.
  pose proof (substring_middle p t "") as E.
  rewrite app_empty_r in E. now rewrite len_app.
Qed.

Lemma substring_to_app (p t : string) : Js.substring (p ++ t) 0 (Js.len p) = p.
Proof.
  pose proof (substring_middle "" p t) as E.
  change ("" ++ p ++ t) with (p ++ t) in E.
  change (Js.len "") with 0 in E. now rewrite Z.add_0_l in E.
Qed.

Lemma every_app (p : ascii -> bool) (a b : string) :
  every p (a ++ b) = every p a && every p b.
Proof.
  induction a as [|x a IH]; simpl; [reflexivity|].
  now rewrite IH, andb_assoc.
Qed.

Lemma every_weaken (p q : ascii -> bool) (s : string) :
  (forall c, p c = true -> q c = true) -> every p s = true -> every q s = true.
Proof.
  intros Hpq. induction s as [|c s IH]; simpl; [reflexivity|].
  intros H. apply andb_true_iff in H as [Hc Hs].
  now rewrite (Hpq c Hc), (IH Hs).
Qed.

End TrimAndSplit.

(** ** What the patterns read *)

Section Patterns.

Lemma lit_app (p t : string) : Regex.lit p (p ++ t) = Some t.
Proof.
  unfold Regex.lit.
  assert (H : Js.startsWith (p ++ t) p = true).
  { induction p as [|a p IH]; simpl; [now destruct t|].
    now rewrite Ascii.eqb_refl, IH. }
  now rewrite H, drop_app_exact.
Qed.

Lemma lit_other_head (a c : ascii) (p x : string) :
  isNot a c = true -> Regex.lit (String a p) (String c x) = None.
Proof.
  unfold isNot, Regex.lit. intros H. apply negb_true_iff in H.
  simpl. now rewrite H.
Qed.

(** The lazy group reads a run that the continuation cannot start in. *)
Lemma lazyDot_reads {R} (k : string -> option R) (ok : ascii -> bool)
    (g t : string) (r : R) :
  (forall c x, ok c = true -> k (String c x) = None) ->
  (forall c, ok c = true -> Js.is_line_terminator c = false) ->
  every ok g = true -> k t = Some r ->
  Regex.lazyDot k (g ++ t) = Some (g, r).
Proof.
  intros Hk Hlt Hg Ht. induction g as [|c g IH]; simpl.
  - destruct t; simpl; now rewrite Ht.
  - simpl in Hg. apply andb_true_iff in Hg as [Hc Hg].
    rewrite (Hk c (g ++ t) Hc), (Hlt c Hc), (IH Hg). reflexivity.
Qed.

(** The search passes over a run in which the pattern cannot start. *)
Lemma search_skips {R} (m : string -> option R) (ok : ascii -> bool)
    (pre t : string) (r : R) :
  (forall c x, ok c = true -> m (String c x) = None) ->
  every ok pre = true -> m t = Some r ->
  Regex.search m (pre ++ t) = Some (pre, r).
Proof.
  intros Hm Hpre Ht. induction pre as [|c pre IH]; simpl.
  - destruct t; simpl; now rewrite Ht.
  - simpl in Hpre. apply andb_true_iff in Hpre as [Hc Hpre].
    rewrite (Hm c (pre ++ t) Hc), (IH Hpre). reflexivity.
Qed.








Lemma image_reads (alt url rest : string) :
  every altChar alt = true -> every urlChar url = true ->
  Regex.image ("![" ++ alt ++ "](" ++ url ++ ")" ++ rest) = Some (alt, url).
Proof.
  intros Ha Hu. unfold Regex.image. rewrite lit_app.
  rewrite (lazyDot_reads _ altChar alt ("](" ++ url ++ ")" ++ rest) (url, rest)).
  - reflexivity.
  - intros c x Hc. unfold altChar in Hc. apply andb_true_iff in Hc as [Hc _].
    now rewrite (lit_other_head "]" c "(" x Hc).
  - intros c Hc. unfold altChar, inLine in Hc.
    apply andb_true_iff in Hc as [_ Hc]. now apply negb_true_iff in Hc.
  - exact Ha.
  - rewrite lit_app.
    apply (lazyDot_reads (Regex.lit ")") urlChar).
    + intros c x Hc. apply lit_other_head.
      unfold urlChar in Hc. now apply andb_true_iff in Hc as [Hc _].
    + intros c Hc. unfold urlChar, inLine in Hc.
      apply andb_true_iff in Hc as [_ Hc]. now apply negb_true_iff in Hc.
    + exact Hu.
    + apply (lit_app ")" rest).
Qed.

End Patterns.





(** ** Lines of the two renderers *)

Section Lines.

Lemma startsWith_app_self (p t : string) : Js.startsWith (p ++ t) p = true.
Proof.
  induction p as [|a p IH]; simpl; [now destruct t|].
  now rewrite Ascii.eqb_refl, IH.
Qed.

Lemma startsWith_head (s p : string) (a : ascii) :
  Js.startsWith s (String a p) = true -> exists x, s = String a x.
Proof.
  destruct s as [|b s]; simpl; [discriminate|].
  intros H. apply andb_true_iff in H as [H _].
  apply Ascii.eqb_eq in H. subst. now exists s.
Qed.

Lemma tight_ends (a z : ascii) (m : string) :
  Js.is_ws a = false -> Js.is_ws z = false ->
  tight (String a (m ++ String z "")) = true.
Proof.
  intros Ha Hz. unfold tight.
  rewrite rev_cons, rev_app. simpl. now rewrite Ha, Hz.
Qed.

Lemma imageLine_trim (alt url : string) :
  Js.trim (Insertion.imageLine alt url) = Insertion.imageLine alt url.
Proof.
  apply trim_tight. unfold Insertion.imageLine.
  replace ("![" ++ alt ++ "](" ++ url ++ ")")
    with (String "!" (("[" ++ alt ++ "](" ++ url) ++ String ")" "")).
  - now apply tight_ends.
  - simpl. now rewrite !app_assoc_s.
Qed.

Lemma matchImage_imageLine (alt url : string) :
  every altChar alt = true -> every urlChar url = true ->
  Regex.matchImage (Insertion.imageLine alt url) = Some (alt, url).
Proof.
  intros Ha Hu. unfold Regex.matchImage.
  assert (E : Regex.search Regex.image ("" ++ Insertion.imageLine alt url)
              = Some ("", (alt, url))).
  { apply (search_skips Regex.image (fun _ => false));
      [discriminate | reflexivity | exact (image_reads alt url "" Ha Hu)]. }
  change ("" ++ Insertion.imageLine alt url) with (Insertion.imageLine alt url) in E.
  now rewrite E.
Qed.

(** A view with no table open is left alone by the closing of tables. *)
Lemma tableClosed_fixed (w : Preview.View) :
  Preview.inTable w = false \/ Preview.tableBuffer w = [] -> tableClosed w = w.
Proof.
  unfold tableClosed. destruct (Preview.inTable w); [|reflexivity].
  intros [H|H]; [discriminate|]. unfold Preview.flushTable. now rewrite H.
Qed.

Lemma tableClosed_closed (v : Preview.View) :
  Preview.inTable (tableClosed v) = false \/ Preview.tableBuffer (tableClosed v) = [].
Proof.
  unfold tableClosed. destruct (Preview.inTable v) eqn:Ei; [|now left].
  unfold Preview.flushTable.
  destruct (Preview.tableBuffer v) eqn:Eb; [right; exact Eb | now left].
Qed.

Lemma tableClosed_twice (v : Preview.View) (e : list Preview.Node)
    (l : list (list Preview.Inline)) (b : bool) :
  tableClosed (Preview.mkView e l (Preview.tableBuffer (tableClosed v)) b
                              (Preview.inTable (tableClosed v)))
  = Preview.mkView e l (Preview.tableBuffer (tableClosed v)) b
                   (Preview.inTable (tableClosed v)).
Proof. apply tableClosed_fixed. cbn. apply tableClosed_closed. Qed.

(** What the first code units of a list line rule out. *)
Lemma list_line_is_no_other (line : string) :
  isListLine line = true ->
  Js.startsWith (Js.trim line) "|" = false /\
  Js.startsWith (Js.trim line) "![" = false /\
  Js.startsWith line "# " = false /\
  Js.startsWith line "## " = false /\
  Js.startsWith line "### " = false.
Proof.
  unfold isListLine. intros H.
  assert (Hhead : exists x, Js.trim line = String "-" x \/ Js.trim line = String "*" x).
  { apply orb_true_iff in H as [H|H]; apply startsWith_head in H as [x Hx];
      exists x; [now left | now right]. }
  destruct Hhead as [x Hx].
  assert (Hheading : forall p, Js.startsWith line (String "#" p) = false).
  { intros p. destruct (Js.startsWith line (String "#" p)) eqn:E; [|reflexivity].
    apply startsWith_head in E as [y ->].
    destruct (trim_head "#" y eq_refl) as [t Ht]. rewrite Ht in Hx.
    destruct Hx; discriminate. }
  repeat split; try apply Hheading; destruct Hx as [-> | ->]; reflexivity.
Qed.

Lemma blank_line_is_no_other (line : string) :
  Js.trim line = "" ->
  Js.startsWith line "# " = false /\
  Js.startsWith line "## " = false /\
  Js.startsWith line "### " = false.
Proof.
  intros Hb.
  assert (Hheading : forall p, Js.startsWith line (String "#" p) = false).
  { intros p. destruct (Js.startsWith line (String "#" p)) eqn:E; [|reflexivity].
    apply startsWith_head in E as [y ->].
    destruct (trim_head "#" y eq_refl) as [t Ht]. congruence. }
  repeat split; apply Hheading.
Qed.

Lemma step_list_line (v : Preview.View) (line : string) :
  isListLine line = true ->
  Preview.step v line
  = Preview.mkView (Preview.elements (tableClosed v))
                   (Preview.listBuffer (tableClosed v) ++ [listItem line])
                   (Preview.tableBuffer (tableClosed v)) true
                   (Preview.inTable (tableClosed v)).
Proof.
  intros H. destruct (list_line_is_no_other line H) as (H1 & H2 & H3 & H4 & H5).
  unfold isListLine in H. unfold Preview.step.
  rewrite H1, H2, H3, H4, H5, H. reflexivity.
Qed.

Lemma step_blank_line (v : Preview.View) (line : string) :
  Js.trim line = "" ->
  Preview.step v line
  = if Preview.inList (tableClosed v) then Preview.flushList (tableClosed v)
    else tableClosed v.
Proof.
  intros Hb. destruct (blank_line_is_no_other line Hb) as (H3 & H4 & H5).
  unfold Preview.step. rewrite Hb, H3, H4, H5. reflexivity.
Qed.

(** Consecutive list lines pile up in the list buffer. *)
Lemma list_run (items : list string) :
  forall v : Preview.View,
    items <> [] -> Forall (fun l => isListLine l = true) items ->
    fold_left Preview.step items v
    = Preview.mkView (Preview.elements (tableClosed v))
                     (Preview.listBuffer (tableClosed v) ++ List.map listItem items)
                     (Preview.tableBuffer (tableClosed v)) true
                     (Preview.inTable (tableClosed v)).
Proof.
  induction items as [|i items IH]; intros v Hne Hall; [congruence|].
  apply Forall_cons in Hall as [Hi Hall]. simpl.
  rewrite (step_list_line v i Hi).
  destruct items as [|i' items'] eqn:E; [reflexivity|].
  rewrite IH by (trivial; congruence).
  rewrite tableClosed_twice. cbn [Preview.elements Preview.listBuffer
    Preview.tableBuffer Preview.inTable].
  now rewrite <- app_assoc.
Qed.

(** The pieces of a table row written from cells without bars. *)
Lemma split_rowOf (cells : list string) :
  Forall (fun c => every (isNot "|") c = true) cells ->
  Js.split "|" (rowOf cells)
  = ("" :: List.map (fun c => (" " ++ c ++ " ")%string) cells ++ [""])%list.
Proof.
  intros Hall. unfold rowOf.
  change (Js.split "|" ("|" ++ ?b)) with ("" :: Js.split "|" b).
  f_equal.
  induction cells as [|c cells IH]; [reflexivity|].
  apply Forall_cons in Hall as [Hc Hall]. cbn [fold_right List.map].
  replace (" " ++ c ++ " |" ++ fold_right (fun c acc => " " ++ c ++ " |" ++ acc) "" cells)
    with ((" " ++ c ++ " ") ++ String "|" (fold_right (fun c acc => " " ++ c ++ " |" ++ acc) "" cells))
    by (simpl; now rewrite !app_assoc_s).
  rewrite split_app, (IH Hall).
  rewrite split_none; [reflexivity|].
  change (" " ++ c ++ " ") with (String " " (c ++ " ")).
  cbn [every]. rewrite every_app, Hc. reflexivity.
Qed.

End Lines.

(** X4.  An image written as a markdown line is read back by both
    renderers.  For an alt text without a closing bracket and a url
    without a closing parenthesis, both on one line, the line made of
    them matches the image pattern with exactly these two groups; from
    every state the preview adds the image with that url and alt text
    (and the caption when the alt text is not empty), and the export
    writes the image element for them, both after closing an open table
    and an open list. *)
Theorem image_line_round_trip (alt url : string) :
  every altChar alt = true -> every urlChar url = true ->
  Regex.matchImage (Insertion.imageLine alt url) = Some (alt, url) /\
  (forall v, Preview.step v (Insertion.imageLine alt url)
             = Preview.push
                 (Preview.Img url alt (if Js.truthy alt then Some alt else None))
                 (Preview.flushList (tableClosed v))) /\
  (forall w, HtmlExport.step w (Insertion.imageLine alt url)
             = HtmlExport.emit (HtmlExport.imageHtml alt url)
                               (HtmlExport.flushList (tableClosedW w))).
Proof.
  intros Ha Hu. pose proof (matchImage_imageLine alt url Ha Hu) as Hm.
  assert (Hbar : Js.startsWith (Insertion.imageLine alt url) "|" = false)
    by reflexivity.
  assert (Himg : Js.startsWith (Insertion.imageLine alt url) "![" = true)
    by apply (startsWith_app_self "![").
  split; [exact Hm|]. split.
  - intros v. unfold Preview.step.
    rewrite imageLine_trim, Hbar, Himg, Hm. reflexivity.
  - intros w. unfold HtmlExport.step.
    rewrite imageLine_trim, Hbar, Himg, Hm. reflexivity.
Qed.

(** The theorem at the image of the specification's example. *)
Lemma image_line_round_trip_witness :
  (every altChar "a cat" = true /\ every urlChar "http://x/y.png" = true) /\
  Regex.matchImage (Insertion.imageLine "a cat" "http://x/y.png")
    = Some ("a cat", "http://x/y.png").
Proof.
  split; [split; reflexivity|].
  exact (proj1 (image_line_round_trip "a cat" "http://x/y.png" eq_refl eq_refl)).
Defined.

(** X5.  A table row written from its cells is parsed back into them:
    for cells that are tight (not empty, no white space at either end)
    and hold no bar, the row made of a bar and, for each cell, a space,
    the cell, a space and a bar has exactly these cells, in order. *)
Theorem parseRow_of_row (cells : list string) :
  Forall (fun c => tight c = true) cells ->
  Forall (fun c => every (isNot "|") c = true) cells ->
  parseRow (rowOf cells) = cells.
Proof.
  intros Ht Hb. unfold parseRow. rewrite (split_rowOf cells Hb).
  change (List.map Js.trim ("" :: ?l)) with ("" :: List.map Js.trim l).
  cbn [List.filter nonEmpty Js.truthy].
  clear Hb. induction cells as [|c cells IH]; [reflexivity|].
  apply Forall_cons in Ht as [Hc Ht]. cbn [List.map app List.filter].
  rewrite (trim_padded " " " " c eq_refl eq_refl Hc).
  assert (Hne : nonEmpty c = true).
  { unfold tight in Hc. now destruct c. }
  rewrite Hne. f_equal. exact (IH Ht).
Qed.

(** The theorem at the header row of the specification's example. *)
Lemma parseRow_of_row_witness :
  (Forall (fun c => tight c = true) ["A"; "B"] /\
   Forall (fun c => every (isNot "|") c = true) ["A"; "B"]) /\
  rowOf ["A"; "B"] = "| A | B |" /\
  parseRow (rowOf ["A"; "B"]) = ["A"; "B"].
Proof.
  assert (H : Forall (fun c => tight c = true) ["A"; "B"] /\
              Forall (fun c => every (isNot "|") c = true) ["A"; "B"])
    by (split; repeat constructor).
  split; [exact H|]. split; [reflexivity|].
  exact (parseRow_of_row ["A"; "B"] (proj1 H) (proj2 H)).
Defined.

(** X6.  List items in the preview.  From every view, a run of lines
    whose trimmed form starts with a dash or a star and a space closes an
    open table and then piles up in the list buffer, one item per line,
    the item being the bold-parsed text after the two-character marker;
    no element is added meanwhile.  A blank line after the run, and the
    end of the input when no table rows are pending, flush the buffer
    into one list that holds the items of the run, in order, after those
    the buffer held before. *)
Theorem list_items_form_one_list (v : Preview.View) (items : list string) :
  items <> [] -> Forall (fun l => isListLine l = true) items ->
  let v' := fold_left Preview.step items v in
  let block := Preview.Ul (Preview.listBuffer (tableClosed v)
                           ++ List.map listItem items) in
  (Preview.elements v' = Preview.elements (tableClosed v) /\
   Preview.listBuffer v'
     = (Preview.listBuffer (tableClosed v) ++ List.map listItem items)%list /\
   Preview.inList v' = true) /\
  (forall line, Js.trim line = "" ->
     Preview.step v' line
     = Preview.mkView (Preview.elements (tableClosed v) ++ [block]) []
                      (Preview.tableBuffer (tableClosed v)) false
                      (Preview.inTable (tableClosed v))) /\
  (Preview.tableBuffer (tableClosed v) = [] ->
   Preview.finish v' = (Preview.elements (tableClosed v) ++ [block])%list).
Proof.
  intros Hne Hall. cbv zeta. rewrite (list_run items v Hne Hall).
  assert (Hbuf : exists x xs,
            (Preview.listBuffer (tableClosed v) ++ List.map listItem items)%list
            = x :: xs).
  { destruct items as [|i items]; [congruence|].
    destruct (Preview.listBuffer (tableClosed v)) as [|b bs]; simpl; eauto. }
  destruct Hbuf as (x & xs & Hbuf).
  split; [repeat split|]. split.
  - intros line Hb. rewrite (step_blank_line _ line Hb), tableClosed_twice.
    cbn [Preview.inList]. unfold Preview.flushList.
    cbn [Preview.listBuffer]. rewrite Hbuf. reflexivity.
  - intros Htb. unfold Preview.finish, Preview.flushList.
    cbn [Preview.listBuffer]. rewrite Hbuf.
    unfold Preview.flushTable. cbn [Preview.tableBuffer]. rewrite Htb.
    reflexivity.
Qed.

(** The theorem at the list of the specification's example. *)
Lemma list_items_form_one_list_witness :
  (["- item one"; "- **item two**"] <> [] /\
   Forall (fun l => isListLine l = true) ["- item one"; "- **item two**"]) /\
  Preview.finish (fold_left Preview.step ["- item one"; "- **item two**"] Preview.initial)
    = [Preview.Ul [[Preview.Text "item one"];
                   [Preview.Text ""; Preview.Strong "item two"; Preview.Text ""]]].
Proof.
  assert (H : ["- item one"; "- **item two**"] <> [] /\
              Forall (fun l => isListLine l = true) ["- item one"; "- **item two**"])
    by (split; [discriminate | repeat constructor]).
  split; [exact H|].
  exact (proj2 (proj2 (list_items_form_one_list Preview.initial
                         ["- item one"; "- **item two**"] (proj1 H) (proj2 H)))
               eq_refl).
Defined.

(** X7.  Headings.  From every state, a line that starts with one, two or
    three hashes and a space is a heading of that level whose text is the
    rest of the line, whatever the rest holds, in the preview and in the
    export alike; an open table and an open list are closed before it. *)
Theorem heading_lines (t : string) :
  (forall v,
     Preview.step v ("# " ++ t)
       = Preview.push (Preview.H1 t) (Preview.flushList (tableClosed v)) /\
     Preview.step v ("## " ++ t)
       = Preview.push (Preview.H2 t) (Preview.flushList (tableClosed v)) /\
     Preview.step v ("### " ++ t)
       = Preview.push (Preview.H3 t) (Preview.flushList (tableClosed v))) /\
  (forall w,
     HtmlExport.step w ("# " ++ t)
       = HtmlExport.emit ("<h1>" ++ t ++ "</h1>")
                         (HtmlExport.flushList (tableClosedW w)) /\
     HtmlExport.step w ("## " ++ t)
       = HtmlExport.emit ("<h2>" ++ t ++ "</h2>")
                         (HtmlExport.flushList (tableClosedW w)) /\
     HtmlExport.step w ("### " ++ t)
       = HtmlExport.emit ("<h3>" ++ t ++ "</h3>")
                         (HtmlExport.flushList (tableClosedW w))).
Proof.
  assert (Hno : forall x,
            Js.startsWith (Js.trim (String "#" x)) "|" = false /\
            Js.startsWith (Js.trim (String "#" x)) "![" = false).
  { intros x. destruct (trim_head "#" x eq_refl) as [y ->]. now split. }
  assert (H1 : Js.substring_from ("# " ++ t) 2 = t)
    by apply (substring_from_app "# " t).
  assert (H2 : Js.substring_from ("## " ++ t) 3 = t)
    by apply (substring_from_app "## " t).
  assert (H3 : Js.substring_from ("### " ++ t) 4 = t)
    by apply (substring_from_app "### " t).
  assert (S1 : Js.startsWith ("# " ++ t) "# " = true)
    by apply startsWith_app_self.
  assert (S2 : Js.startsWith ("## " ++ t) "## " = true)
    by apply startsWith_app_self.
  assert (S3 : Js.startsWith ("### " ++ t) "### " = true)
    by apply startsWith_app_self.
  assert (N21 : Js.startsWith ("## " ++ t) "# " = false) by reflexivity.
  assert (N31 : Js.startsWith ("### " ++ t) "# " = false) by reflexivity.
  assert (N32 : Js.startsWith ("### " ++ t) "## " = false) by reflexivity.
  destruct (Hno (" " ++ t)) as [B1 I1].
  destruct (Hno ("# " ++ t)) as [B2 I2].
  destruct (Hno ("## " ++ t)) as [B3 I3].
  change (String "#" (" " ++ t)) with ("# " ++ t) in B1, I1.
  change (String "#" ("# " ++ t)) with ("## " ++ t) in B2, I2.
  change (String "#" ("## " ++ t)) with ("### " ++ t) in B3, I3.
  split; intros s; (split; [|split]).
  - unfold Preview.step. rewrite B1, I1, S1, H1. reflexivity.
  - unfold Preview.step. rewrite B2, I2, N21, S2, H2. reflexivity.
  - unfold Preview.step. rewrite B3, I3, N31, N32, S3, H3. reflexivity.
  - unfold HtmlExport.step. rewrite B1, I1, S1, H1. reflexivity.
  - unfold HtmlExport.step. rewrite B2, I2, N21, S2, H2. reflexivity.
  - unfold HtmlExport.step. rewrite B3, I3, N31, N32, S3, H3. reflexivity.
Qed.

(** ** Inserting an image at the cursor *)

(** X8.  A generated image is spliced in at the remembered cursor
    position on a line of its own.  With a prompt, a first url that is
    not empty and a position inside the content, the content falls into
    the part before the position and the part after it; the new content
    is the first part, the image markdown and the second part, the prompt
    is cleared, the modal closed, and the cursor is put right behind the
    inserted markdown.  When neither the prompt nor the url holds a line
    feed, the lines of the new content are the lines of the first part,
    an empty line, the image line, an empty line, and the lines of the
    second part. *)
Theorem insert_image_on_its_own_line
    (content prompt url : string) (others : list string) (pos : Z) (modal : bool) :
  0 <= pos <= Js.len content -> prompt <> "" -> url <> "" ->
  every (isNot "010") prompt = true -> every (isNot "010") url = true ->
  exists p r,
    content = p ++ r /\ Js.len p = pos /\
    Insertion.handleConfirmInsertImage
      (Insertion.mkState content prompt pos modal) (url :: others)
    = (Insertion.mkState (p ++ Insertion.imageMarkdown prompt url ++ r) "" pos false,
       Some (pos + Js.len (Insertion.imageMarkdown prompt url))) /\
    Js.substring (p ++ Insertion.imageMarkdown prompt url ++ r) 0
                 (pos + Js.len (Insertion.imageMarkdown prompt url))
    = p ++ Insertion.imageMarkdown prompt url /\
    Js.split "010" (p ++ Insertion.imageMarkdown prompt url ++ r)
    = (Js.split "010" p ++ [""; Insertion.imageLine prompt url; ""]
         ++ Js.split "010" r)%list.
Proof.
  intros Hpos Hp Hu Hpl Hul.
  destruct (split_at content pos (Js.len content)) as (p & q & r0 & Hc & Hlp & Hlq);
    [lia | lia |].
  exists p, (q ++ r0). split; [exact Hc|]. split; [exact Hlp|].
  apply truthy_nonempty in Hp. apply truthy_nonempty in Hu.
  split; [|split].
  - unfold Insertion.handleConfirmInsertImage.
    cbn [Insertion.insertImagePrompt Insertion.generatedContent
         Insertion.insertImageCursorPos].
    rewrite Hp, Hu. cbn [negb]. rewrite Hc, <- Hlp.
    now rewrite substring_to_app, substring_from_app.
  - rewrite <- Hlp, <- len_app, <- app_assoc_s.
    apply substring_to_app.
  - assert (Hline : every (isNot "010") (Insertion.imageLine prompt url) = true).
    { unfold Insertion.imageLine.
      change ("![" ++ prompt ++ "](" ++ url ++ ")")
        with (String "!" (String "[" (prompt ++ "](" ++ url ++ ")"))).
      cbn [every]. rewrite every_app, Hpl.
      change ("](" ++ url ++ ")") with (String "]" (String "(" (url ++ ")"))).
      cbn [every]. rewrite every_app, Hul. reflexivity. }
    assert (E : p ++ Insertion.imageMarkdown prompt url ++ q ++ r0
                = p ++ String "010"
                    ("" ++ String "010"
                       (Insertion.imageLine prompt url
                          ++ String "010" ("" ++ String "010" (q ++ r0))))).
    { unfold Insertion.imageMarkdown, Insertion.nl. simpl.
      now rewrite !app_assoc_s. }
    rewrite E, !split_app, (split_none _ _ Hline). reflexivity.
Qed.

(** The theorem at an insertion between two words. *)
Lemma insert_image_on_its_own_line_witness :
  (0 <= 3 <= Js.len "onetwo" /\ "a cat" <> "" /\ "data:x" <> "" /\
   every (isNot "010") "a cat" = true /\ every (isNot "010") "data:x" = true) /\
  exists p r,
    "onetwo" = p ++ r /\ Js.len p = 3 /\
    Insertion.handleConfirmInsertImage
      (Insertion.mkState "onetwo" "a cat" 3 true) ["data:x"]
    = (Insertion.mkState (p ++ Insertion.imageMarkdown "a cat" "data:x" ++ r) "" 3 false,
       Some (3 + Js.len (Insertion.imageMarkdown "a cat" "data:x"))) /\
    Js.substring (p ++ Insertion.imageMarkdown "a cat" "data:x" ++ r) 0
                 (3 + Js.len (Insertion.imageMarkdown "a cat" "data:x"))
    = p ++ Insertion.imageMarkdown "a cat" "data:x" /\
    Js.split "010" (p ++ Insertion.imageMarkdown "a cat" "data:x" ++ r)
    = (Js.split "010" p ++ [""; Insertion.imageLine "a cat" "data:x"; ""]
         ++ Js.split "010" r)%list.
Proof.
  assert (H : 0 <= 3 <= Js.len "onetwo" /\ "a cat" <> "" /\ "data:x" <> "" /\
              every (isNot "010") "a cat" = true /\ every (isNot "010") "data:x" = true).
  { split; [vm_compute; split; discriminate|].
    split; [discriminate|]. split; [discriminate|]. split; reflexivity. }
  split; [exact H|].
  destruct H as (H1 & H2 & H3 & H4 & H5).
  exact (insert_image_on_its_own_line "onetwo" "a cat" "data:x" [] 3 true H1 H2 H3 H4 H5).
Defined.

(** ** Editing and generating images *)

Section ImagePipelines.

Lemma stripDataPrefix_dataUrl (data : string) :
  GeminiEdit.stripDataPrefix (Gemini.dataUrl data) = data.
Proof.
  unfold GeminiEdit.stripDataPrefix, Gemini.dataUrl.
  change ("data:image/png;base64," ++ data)
    with ("data:image/" ++ String "p" ("ng;base64," ++ data)) at 1.
  rewrite lit_app.
  change (GeminiEdit.isWord "p") with true. cbv iota.
  change (GeminiEdit.afterWord ("ng;base64," ++ data)) with (";base64," ++ data).
  now rewrite lit_app.
Qed.

Lemma firstInline_dataUrl (parts : Gemini.Response) (url : string) :
  Gemini.firstInline parts = Some url -> exists data, url = Gemini.dataUrl data.
Proof.
  induction parts as [|part parts IH]; simpl; [discriminate|].
  destruct (Gemini.inlineData part) as [data|]; [|exact IH].
  intros [= <-]. now exists data.
Qed.

Lemma firstInline_none (parts : Gemini.Response) :
  Forall noImage parts -> Gemini.firstInline parts = None.
Proof.
  induction 1 as [|part parts Hp _ IH]; [reflexivity|].
  simpl. unfold noImage in Hp. now rewrite Hp.
Qed.

Lemma firstInline_first (pre : Gemini.Response) (data : string) (post : Gemini.Response) :
  Forall noImage pre ->
  Gemini.firstInline (pre ++ Gemini.mkPart (Some data) :: post)%list
    = Some (Gemini.dataUrl data).
Proof.
  induction 1 as [|part parts Hp _ IH]; [reflexivity|].
  simpl. unfold noImage in Hp. now rewrite Hp.
Qed.

Lemma generateSingle_dataUrl (service : nat -> Gemini.Outcome Gemini.Response)
    (url : string) :
  Gemini.generateSingle service = Some url -> exists data, url = Gemini.dataUrl data.
Proof.
  unfold Gemini.generateSingle.
  destruct (Gemini.result (Gemini.retryDefault service)); [|discriminate].
  apply firstInline_dataUrl.
Qed.

Lemma nonNull_Forall (P : string -> Prop) (results : list (option string)) :
  (forall url, In (Some url) results -> P url) ->
  Forall P (Gemini.nonNull results).
Proof.
  induction results as [|[u|] results IH]; intros H; simpl.
  - constructor.
  - constructor; [apply H; now left | apply IH; intros; apply H; now right].
  - apply IH. intros. apply H. now right.
Qed.

Lemma generateImage_dataUrls (count : Z)
    (service : nat -> nat -> Gemini.Outcome Gemini.Response) :
  Forall (fun url => exists data, url = Gemini.dataUrl data)
         (Gemini.generateImage count service).
Proof.
  unfold Gemini.generateImage. apply nonNull_Forall.
  intros url Hin. unfold Gemini.requests in Hin.
  apply in_map_iff in Hin as (i & Hi & _).
  now apply generateSingle_dataUrl in Hi.
Qed.

Lemma backoff_total (k : nat) :
  forall delay, fold_right Z.add 0 (backoff delay k) = delay * (2 ^ Z.of_nat k - 1).
Proof.
  induction k as [|k IH]; intros delay.
  - simpl. lia.
  - cbn [backoff fold_right]. rewrite IH.
    rewrite Nat2Z.inj_succ, Z.pow_succ_r by lia. lia.
Qed.

End ImagePipelines.

(** X9.  What is sent for an edit.  The data url that [generateSingle]
    builds from base64 data is stripped back to exactly that data, and a
    text that does not start like a data url is sent as it is.  For an
    image and a mask given as such data urls the request holds three
    parts: the image data, the mask data and the prompt behind the mask
    instruction; without a mask it holds two: the image data and the
    prompt. *)
Theorem edit_request_carries_image_data (data mask prompt : string) :
  GeminiEdit.stripDataPrefix (Gemini.dataUrl data) = data /\
  (forall s, Js.startsWith s "data:image/" = false ->
             GeminiEdit.stripDataPrefix s = s) /\
  GeminiEdit.editParts (Gemini.dataUrl data) prompt (Some (Gemini.dataUrl mask))
    = [GeminiEdit.SentInline "image/png" data;
       GeminiEdit.SentInline "image/png" mask;
       GeminiEdit.SentText ("Edit the first image based on the mask provided in the second image. The white pixels in the mask indicate the area to be modified. Modification instruction: " ++ prompt)] /\
  GeminiEdit.editParts (Gemini.dataUrl data) prompt None
    = [GeminiEdit.SentInline "image/png" data; GeminiEdit.SentText prompt].
Proof.
  split; [apply stripDataPrefix_dataUrl|]. split; [|split].
  - intros s H. unfold GeminiEdit.stripDataPrefix, Regex.lit. now rewrite H.
  - unfold GeminiEdit.editParts.
    change (Js.truthy (Gemini.dataUrl mask)) with true. cbv iota.
    now rewrite !stripDataPrefix_dataUrl.
  - unfold GeminiEdit.editParts. now rewrite stripDataPrefix_dataUrl.
Qed.

(** X10.  An edit of the current image, from the request to the image
    set.  Whatever the service answers, over all retries, the selection
    and the length of the image list stay as they are and every slot but
    the selected one reads what it read before; a valid selection stays
    valid.  What happens to the selected slot is decided by the answer
    of the attempt at which the retried call stops.  When that attempt
    fails, or answers without an image part, or there is no current
    image or no prompt, the state is untouched.  Otherwise the selected
    slot holds the data url of the first image part of that answer, and
    this is the current image. *)
Theorem edit_pipeline_touches_one_slot
    (st : Images.State) (prompt : string) (mask : option string) (cur : string)
    (service : list GeminiEdit.SentPart -> nat -> Gemini.Outcome Gemini.Response) :
  let request := GeminiEdit.editParts cur prompt mask in
  let st' := Images.handleEditImage st prompt
               (GeminiEdit.editGeneratedImage service cur prompt mask) in
  Images.selectedImageIndex st' = Images.selectedImageIndex st /\
  length (Images.generatedImageUrls st') = length (Images.generatedImageUrls st) /\
  (forall j : Z, j <> Images.selectedImageIndex st ->
     Js.index (Images.generatedImageUrls st') j
       = Js.index (Images.generatedImageUrls st) j) /\
  (Images.currentImageUrl st = None \/ prompt = "" -> st' = st) /\
  (exists k : nat,
     (k <= 3)%nat /\
     (forall a, (a < k)%nat -> overloaded_failure (service request a) = true) /\
     (k = 3%nat \/ overloaded_failure (service request k) = false) /\
     match service request k with
     | Gemini.Rejected _ => st' = st
     | Gemini.Resolved response =>
         (Forall noImage response -> st' = st) /\
         (forall pre data post,
            response = (pre ++ Gemini.mkPart (Some data) :: post)%list ->
            Forall noImage pre ->
            Images.currentImageUrl st <> None -> prompt <> "" ->
            Images.generatedImageUrls st'
              = <[Z.to_nat (Images.selectedImageIndex st) := Gemini.dataUrl data]>
                  (Images.generatedImageUrls st) /\
            Images.currentImageUrl st' = Some (Gemini.dataUrl data))
     end) /\
  (Images.selection_valid st -> Images.selection_valid st').
Proof.
  cbv zeta.
  set (request := GeminiEdit.editParts cur prompt mask).
  set (r := GeminiEdit.editGeneratedImage service cur prompt mask).
  split; [|split; [|split; [|split; [|split]]]].
  - unfold Images.handleEditImage. destruct (Images.currentImageUrl st); [|reflexivity].
    destruct (negb (Js.truthy prompt)); [reflexivity|].
    destruct r as [[u|]|]; try reflexivity. now destruct (Js.truthy u).
  - unfold Images.handleEditImage. destruct (Images.currentImageUrl st); [|reflexivity].
    destruct (negb (Js.truthy prompt)); [reflexivity|].
    destruct r as [[u|]|]; try reflexivity.
    destruct (Js.truthy u); [|reflexivity]. apply length_insert.
  - intros j Hj. unfold Images.handleEditImage.
    destruct (Images.currentImageUrl st) eqn:Ec; [|reflexivity].
    destruct (negb (Js.truthy prompt)); [reflexivity|].
    destruct r as [[u|]|]; try reflexivity.
    destruct (Js.truthy u); [|reflexivity].
    cbn [Images.generatedImageUrls]. unfold Js.index.
    destruct (j <? 0) eqn:Ej; [reflexivity|].
    apply currentImageUrl_Some in Ec as [Ei _]. apply index_Some in Ei as [H0 _].
    apply list_lookup_insert_ne. apply Z.ltb_ge in Ej. lia.
  - unfold Images.handleEditImage. intros [-> | ->]; [reflexivity|].
    now destruct (Images.currentImageUrl st).
  - destruct (retryDefault_run (service request))
      as (k & Hk & Hlt & Hstop & Hrun).
    exists k. split; [exact Hk|]. split; [exact Hlt|]. split; [exact Hstop|].
    assert (Hr : r = match service request k with
                     | Gemini.Resolved parts => Images.Edited (Gemini.firstInline parts)
                     | Gemini.Rejected _ => Images.EditThrew
                     end).
    { subst r request. unfold GeminiEdit.editGeneratedImage. now rewrite Hrun. }
    rewrite Hr. destruct (service request k) as [response|e].
    + split.
      * intros Hno. rewrite (firstInline_none response Hno).
        unfold Images.handleEditImage. destruct (Images.currentImageUrl st); [|reflexivity].
        now destruct (negb (Js.truthy prompt)).
      * intros pre data post -> Hpre Hcur Hprompt.
        rewrite (firstInline_first pre data post Hpre).
        unfold Images.handleEditImage.
        destruct (Images.currentImageUrl st) as [c|] eqn:Ec; [|congruence].
        apply truthy_nonempty in Hprompt. rewrite Hprompt. cbn [negb].
        change (Js.truthy (Gemini.dataUrl data)) with true. cbv iota.
        split; [reflexivity|].
        apply currentImageUrl_Some. cbn [Images.generatedImageUrls
          Images.selectedImageIndex]. split; [|discriminate].
        apply currentImageUrl_Some in Ec as [Ei _]. apply index_Some in Ei as [H0 Hl].
        apply index_Some. split; [exact H0|].
        apply list_lookup_insert_eq. now apply lookup_lt_Some in Hl.
    + unfold Images.handleEditImage. destruct (Images.currentImageUrl st); [|reflexivity].
      now destruct (negb (Js.truthy prompt)).
  - apply handleEditImage_valid.
Qed.

(** X11.  Generating a set of images, from the requests to the image
    set.  Every url that comes back is a data url, so none is empty; at
    most five come back; the selection is 0 and valid; the current image
    is the first url that came back, and null when none did. *)
Theorem generation_pipeline_selects_first
    (st : Images.State) (count : Z)
    (service : nat -> nat -> Gemini.Outcome Gemini.Response) :
  let urls := Gemini.generateImage count service in
  let st' := Images.handleGenerateImage st urls in
  Forall (fun url => exists data, url = Gemini.dataUrl data) urls /\
  Forall (fun url => url <> "") urls /\
  (length urls <= 5)%nat /\
  Images.generatedImageUrls st' = urls /\
  Images.selectedImageIndex st' = 0 /\
  Images.selection_valid st' /\
  Images.currentImageUrl st' = head urls.
Proof.
  cbv zeta. pose proof (generateImage_dataUrls count service) as Hd.
  assert (Hne : Forall (fun url => url <> "") (Gemini.generateImage count service)).
  { eapply Forall_impl; [exact Hd|]. intros url [data ->]. discriminate. }
  split; [exact Hd|]. split; [exact Hne|]. split; [|split; [|split; [|split]]].
  - unfold Gemini.generateImage.
    pose proof (length_nonNull (Gemini.requests count service)) as Hl.
    unfold Gemini.requests, Gemini.safeCount in *.
    rewrite length_map, length_seq in Hl. lia.
  - unfold Images.handleGenerateImage. now destruct (Gemini.generateImage count service).
  - unfold Images.handleGenerateImage. now destruct (Gemini.generateImage count service).
  - apply handleGenerateImage_valid.
  - unfold Images.handleGenerateImage.
    destruct (Gemini.generateImage count service) as [|u urls]; [reflexivity|].
    apply Forall_cons in Hne as [Hu _]. apply truthy_nonempty in Hu.
    unfold Images.currentImageUrl. simpl. now rewrite Hu.
Qed.

(** X12.  The cost of a retried call, for every number of retries and
    every first delay.  The run makes at least one call and at most one
    more than the retries allowed; it hands on the outcome of its last
    call; it sleeps once before every call but the first, and the delays
    add up to the first delay times one less than two to the number of
    sleeps.  With the defaults that is at most 7000 ms. *)
Theorem retry_cost {T : Type} (operation : nat -> Gemini.Outcome T)
    (retries : nat) (delay : Z) :
  let run := Gemini.retryWithBackoff operation retries delay in
  (1 <= Gemini.calls run <= retries + 1)%nat /\
  Gemini.result run = operation (Gemini.calls run - 1)%nat /\
  length (Gemini.sleeps run) = (Gemini.calls run - 1)%nat /\
  fold_right Z.add 0 (Gemini.sleeps run)
    = delay * (2 ^ Z.of_nat (Gemini.calls run - 1) - 1) /\
  fold_right Z.add 0 (Gemini.sleeps (Gemini.retryDefault operation)) <= 7000.
Proof.
  cbv zeta.
  assert (Hlen : forall k d, length (backoff d k) = k).
  { induction k as [|k IH]; intros d; simpl; [reflexivity | now rewrite IH]. }
  destruct (retry_run retries operation delay) as (k & Hk & _ & _ & ->).
  cbn [Gemini.calls Gemini.result Gemini.sleeps].
  replace (S k - 1)%nat with k by lia.
  split; [lia|]. split; [reflexivity|]. split; [apply Hlen|].
  split; [apply backoff_total|].
  unfold Gemini.retryDefault.
  destruct (retry_run 3 operation 1000) as (k3 & Hk3 & _ & _ & ->).
  cbn [Gemini.sleeps]. rewrite backoff_total.
  destruct k3 as [|[|[|[|k3]]]]; simpl; lia.
Qed.

(** ** Throttling, thumbnails, saved articles *)

Section Throttle.

Import Stream.

(** Only a fragment that passes the throttle changes the visible text. *)
Lemma onChunk_changes (s : Session) (f : string * Z) :
  generatedContent (onChunk s f) <> generatedContent s ->
  RENDER_THROTTLE_MS < snd f - lastUpdateTime s /\
  lastUpdateTime (onChunk s f) = snd f /\
  generatedContent (onChunk s f) = contentBuffer s ++ fst f.
Proof.
  destruct f as [chunk now]. unfold onChunk. cbn [snd fst].
  destruct (Z.gtb_spec (now - lastUpdateTime s) RENDER_THROTTLE_MS) as [H|H];
    cbn [generatedContent lastUpdateTime].
  - intros _. split; [lia|]. now split.
  - intros Hne. now contradiction Hne.
Qed.

(** A fragment that passes the throttle shows the whole buffer. *)
Lemma onChunk_flushes (s : Session) (f : string * Z) :
  RENDER_THROTTLE_MS < snd f - lastUpdateTime s ->
  generatedContent (onChunk s f) = contentBuffer s ++ fst f.
Proof.
  destruct f as [chunk now]. unfold onChunk. cbn [snd fst]. intros H.
  destruct (Z.gtb_spec (now - lastUpdateTime s) RENDER_THROTTLE_MS); [reflexivity | lia].
Qed.

(** The remembered time never goes back. *)
Lemma lastUpdateTime_onChunk (s : Session) (f : string * Z) :
  lastUpdateTime s <= lastUpdateTime (onChunk s f).
Proof.
  destruct f as [chunk now]. unfold onChunk.
  destruct (Z.gtb_spec (now - lastUpdateTime s) RENDER_THROTTLE_MS) as [H|H];
    cbn [lastUpdateTime]; [unfold RENDER_THROTTLE_MS in H|]; lia.
Qed.

Lemma lastUpdateTime_mono (fragments : list (string * Z)) (n m : nat) :
  (n <= m)%nat ->
  lastUpdateTime (deliver (firstn n fragments))
    <= lastUpdateTime (deliver (firstn m fragments)).
Proof.
  induction 1 as [|m _ IH]; [lia|].
  destruct (fragments !! m) as [f|] eqn:E.
  - rewrite (deliver_take_S _ _ _ E).
    pose proof (lastUpdateTime_onChunk (deliver (firstn m fragments)) f). lia.
  - apply lookup_ge_None in E.
    rewrite (take_ge fragments (S m)) by lia.
    rewrite (take_ge fragments m) in IH by lia. exact IH.
Qed.

(** The remembered time is 0 or the time of a fragment that arrived. *)
Lemma lastUpdateTime_arrival (fragments : list (string * Z)) (n : nat) :
  lastUpdateTime (deliver (firstn n fragments)) = 0 \/
  exists i f, (i < n)%nat /\ fragments !! i = Some f /\
              lastUpdateTime (deliver (firstn n fragments)) = snd f.
Proof.
  destruct (last_flush (firstn n fragments)) as (k & Hk & _ & _ & -> & _).
  destruct k as [|k]; [now left|]. right.
  rewrite List.length_firstn in Hk.
  destruct (lookup_lt_is_Some_2 (firstn n fragments) k) as [f Hf];
    [rewrite List.length_firstn; lia|].
  exists k, f. split; [lia|]. split.
  - rewrite lookup_take_lt in Hf by lia. exact Hf.
  - unfold arrival. now rewrite Hf.
Qed.

End Throttle.

(** X13.  The throttle of the stream, as the reader sees it.  The
    arrival of a fragment changes the visible text only when it comes
    more than 32 ms after time 0, and the text is then everything that
    has arrived, that fragment included.  Two arrivals that change the
    visible text lie more than 32 ms apart, whatever the clock reads in
    between.  The throttle holds nothing back for longer: a fragment
    that arrives more than 32 ms after time 0 and after every fragment
    before it is shown at once. *)
Theorem stream_flushes_are_spaced (fragments : list (string * Z)) :
  (forall i fi,
     fragments !! i = Some fi ->
     shownAfter fragments (S i) <> shownAfter fragments i ->
     Stream.RENDER_THROTTLE_MS < snd fi /\
     shownAfter fragments (S i) = Stream.concat (firstn (S i) fragments)) /\
  (forall i j fi fj,
     (i < j)%nat -> fragments !! i = Some fi -> fragments !! j = Some fj ->
     shownAfter fragments (S i) <> shownAfter fragments i ->
     shownAfter fragments (S j) <> shownAfter fragments j ->
     Stream.RENDER_THROTTLE_MS < snd fj - snd fi) /\
  (forall j fj,
     fragments !! j = Some fj ->
     Stream.RENDER_THROTTLE_MS < snd fj ->
     (forall i fi, (i < j)%nat -> fragments !! i = Some fi ->
                   Stream.RENDER_THROTTLE_MS < snd fj - snd fi) ->
     shownAfter fragments (S j) = Stream.concat (firstn (S j) fragments)).
Proof.
  unfold shownAfter.
  assert (Hbuf : forall n, Stream.contentBuffer (Stream.deliver (firstn n fragments))
                           = Stream.concat (firstn n fragments))
    by (intros n; apply assembled_deliver).
  assert (Hpos : forall n, 0 <= Stream.lastUpdateTime (Stream.deliver (firstn n fragments))).
  { intros n. apply (lastUpdateTime_mono fragments 0 n). lia. }
  split; [|split].
  - intros i fi Hi. rewrite (deliver_take_S _ _ _ Hi). intros Hne.
    apply onChunk_changes in Hne as (Hgap & _ & ->).
    specialize (Hpos i). split; [lia|].
    now rewrite Hbuf, (take_S_r _ _ _ Hi), concat_snoc.
  - intros i j fi fj Hij Hi Hj.
    rewrite (deliver_take_S _ _ _ Hi), (deliver_take_S _ _ _ Hj). intros Hci Hcj.
    apply onChunk_changes in Hci as (_ & Hti & _).
    apply onChunk_changes in Hcj as (Hgap & _ & _).
    rewrite <- (deliver_take_S _ _ _ Hi) in Hti.
    pose proof (lastUpdateTime_mono fragments (S i) j) as Hm. lia.
  - intros j fj Hj H0 Hearlier. rewrite (deliver_take_S _ _ _ Hj).
    rewrite onChunk_flushes.
    + now rewrite Hbuf, (take_S_r _ _ _ Hj), concat_snoc.
    + destruct (lastUpdateTime_arrival fragments j) as [->|(i & fi & Hi & Hfi & ->)];
        [lia|]. exact (Hearlier i fi Hi Hfi).
Qed.

(** X14.  A click on a thumbnail shows that image: in a set without
    empty urls, such as every generated set, each index the gallery
    offers is a position of the list, and after the click the current
    image is the url at that position. *)
Theorem thumbnail_click_shows_image (st : Images.State) (idx : Z) :
  Forall (fun url => url <> "") (Images.generatedImageUrls st) ->
  In idx (Images.thumbnails st) ->
  exists url,
    Images.generatedImageUrls st !! Z.to_nat idx = Some url /\
    Images.currentImageUrl (Images.setSelectedImageIndex idx st) = Some url.
Proof.
  intros Hall Hin.
  assert (Hrange : 0 <= idx < Z.of_nat (length (Images.generatedImageUrls st))).
  { unfold Images.thumbnails in Hin.
    destruct (Images.currentImageUrl st); [|contradiction].
    destruct (1 <? _); [|contradiction].
    apply in_map_iff in Hin as (n & <- & Hn). apply in_seq in Hn. lia. }
  destruct (lookup_lt_is_Some_2 (Images.generatedImageUrls st) (Z.to_nat idx))
    as [url Hurl]; [lia|].
  exists url. split; [exact Hurl|].
  apply currentImageUrl_Some. cbn [Images.generatedImageUrls
    Images.setSelectedImageIndex Images.selectedImageIndex]. split.
  - apply index_Some. split; [lia | exact Hurl].
  - rewrite Forall_forall in Hall. apply Hall.
    eapply list_elem_of_lookup_2; eauto.
Qed.

(** The theorem at the second of three generated images. *)
Lemma thumbnail_click_shows_image_witness :
  (Forall (fun url => url <> "") ["u0"; "u1"; "u2"] /\
   In 1 (Images.thumbnails (Images.mkState ["u0"; "u1"; "u2"] 0))) /\
  exists url,
    ["u0"; "u1"; "u2"] !! Z.to_nat 1 = Some url /\
    Images.currentImageUrl
      (Images.setSelectedImageIndex 1 (Images.mkState ["u0"; "u1"; "u2"] 0))
    = Some url.
Proof.
  assert (H : Forall (fun url => url <> "") ["u0"; "u1"; "u2"] /\
              In 1 (Images.thumbnails (Images.mkState ["u0"; "u1"; "u2"] 0))).
  { split; [repeat constructor; discriminate | simpl; tauto]. }
  split; [exact H|].
  exact (thumbnail_click_shows_image (Images.mkState ["u0"; "u1"; "u2"] 0) 1
           (proj1 H) (proj2 H)).
Defined.

(** X15.  Saving an article and opening it again.  The article saved is
    put first in the history and holds the topic, the category, the
    content and the current image.  Opening it, from whatever the
    workspace has become, gives back that topic, category and content,
    and an image list that holds the saved image alone, or nothing when
    there was no current image; the history is not touched.  The saved
    image is the current image again when the selection is 0. *)
Theorem save_then_open_restores (w later : History.Workspace) (newId : string) (now : Z) :
  exists article,
    History.savedArticles (History.handleSaveArticle newId now w)
      = article :: History.savedArticles w /\
    History.id article = newId /\ History.date article = now /\
    let opened := History.openSaved article later in
    History.configTopic opened = History.configTopic w /\
    History.configType opened = History.configType w /\
    History.generatedContent opened = History.generatedContent w /\
    Images.generatedImageUrls (History.images opened)
      = match Images.currentImageUrl (History.images w) with
        | Some url => [url]
        | None => []
        end /\
    History.savedArticles opened = History.savedArticles later /\
    (Images.selectedImageIndex (History.images later) = 0 ->
     Images.currentImageUrl (History.images opened)
       = Images.currentImageUrl (History.images w)).
Proof.
  eexists. split; [reflexivity|]. split; [reflexivity|]. split; [reflexivity|].
  cbv zeta. cbn [History.openSaved History.configTopic History.configType
    History.generatedContent History.images History.savedArticles History.topic
    History.type_ History.content History.imageUrl].
  assert (Himg : Images.generatedImageUrls
                   (Images.openArticle (History.images later)
                      (Images.currentImageUrl (History.images w)))
                 = match Images.currentImageUrl (History.images w) with
                   | Some url => [url]
                   | None => []
                   end).
  { destruct (Images.currentImageUrl (History.images w)) as [u|] eqn:E; [|reflexivity].
    apply currentImageUrl_Some in E as [_ Hne]. apply truthy_nonempty in Hne.
    unfold Images.openArticle. now rewrite Hne. }
  repeat split; trivial.
  intros Hsel. unfold Images.currentImageUrl at 1.
  rewrite Himg.
  assert (Hs : Images.selectedImageIndex
                 (Images.openArticle (History.images later)
                    (Images.currentImageUrl (History.images w))) = 0).
  { unfold Images.openArticle.
    destruct (Images.currentImageUrl (History.images w)) as [u|];
      [destruct (Js.truthy u)|]; exact Hsel. }
  rewrite Hs.
  destruct (Images.currentImageUrl (History.images w)) as [u|] eqn:E; [|reflexivity].
  apply currentImageUrl_Some in E as [_ Hne]. apply truthy_nonempty in Hne.
  change (Js.index [u] 0) with (Some u). cbv iota beta. now rewrite Hne.
Qed.

(** ** The article settings *)

Section SettingsFacts.

Import Settings.

Lemma existsb_eqb_In (x : string) (seen : list string) :
  existsb (String.eqb x) seen = true <-> In x seen.
Proof.
  rewrite existsb_exists. split.
  - intros (y & Hy & E). apply String.eqb_eq in E. now subst.
  - intros H. exists x. split; [exact H | apply String.eqb_refl].
Qed.

Lemma uniqueFrom_In (xs : list string) :
  forall seen x, In x (uniqueFrom seen xs) <-> In x xs /\ ~ In x seen.
Proof.
  induction xs as [|y xs IH]; intros seen x; simpl; [tauto|].
  destruct (existsb (String.eqb y) seen) eqn:E.
  - apply existsb_eqb_In in E. rewrite IH. split.
    + intros [H1 H2]. tauto.
    + intros [[->|H1] H2]; tauto.
  - assert (Hy : ~ In y seen).
    { intros H. apply existsb_eqb_In in H. congruence. }
    simpl. rewrite IH. simpl. split.
    + intros [<-|[H1 H2]]; [tauto|]. split; [tauto|]. intros H. apply H2. now right.
    + intros [[<-|H1] H2]; [now left|].
      destruct (String.eqb_spec y x) as [->|Hne]; [now left|]. right.
      split; [exact H1|]. intros [?|?]; tauto.
Qed.

Lemma uniqueFrom_NoDup (xs : list string) :
  forall seen, NoDup (uniqueFrom seen xs).
Proof.
  induction xs as [|y xs IH]; intros seen; simpl; [constructor|].
  destruct (existsb (String.eqb y) seen); [apply IH|].
  constructor; [|apply IH].
  rewrite list_elem_of_In, uniqueFrom_In. intros [_ H]. apply H. now left.
Qed.

Lemma tight_nonempty (s : string) : tight s = true -> Js.truthy s = true.
Proof. unfold tight. now destruct s. Qed.

Lemma currentList_one (kw : string) :
  tight kw = true -> every (isNot ",") kw = true -> currentList kw = [kw].
Proof.
  intros Ht Hc. unfold currentList.
  rewrite (tight_nonempty kw Ht), (split_none "," kw Hc). cbn [List.map List.filter].
  rewrite (trim_tight kw Ht).
  assert (Hl : (0 <? Js.len kw) = true).
  { apply Z.ltb_lt. unfold Js.len. apply tight_nonempty in Ht.
    destruct kw; [discriminate | simpl; lia]. }
  now rewrite Hl.
Qed.

End SettingsFacts.

(** X16.  The length selection never becomes empty and never holds more
    than two entries: from a selection of one or two different lengths,
    every toggle gives a selection of one or two different lengths. *)
Theorem toggleLength_keeps_one_or_two (l : Settings.Length)
    (current : list Settings.Length) :
  NoDup current -> (1 <= length current <= 2)%nat ->
  NoDup (Settings.toggleLength l current) /\
  (1 <= length (Settings.toggleLength l current) <= 2)%nat.
Proof.
  intros Hnd Hlen.
  destruct current as [|a [|b [|c rest]]]; simpl in Hlen; try lia.
  - unfold Settings.toggleLength. case_bool_decide as Hin; cbn.
    + split; [exact Hnd | lia].
    + split; [|lia]. apply NoDup_cons. split; [|apply NoDup_singleton].
      rewrite list_elem_of_singleton. intros ->. apply Hin. now left.
  - apply NoDup_cons in Hnd as [Hab _]. rewrite list_elem_of_singleton in Hab.
    unfold Settings.toggleLength. case_bool_decide as Hin; cbn [length Nat.eqb Nat.leb drop app].
    + rewrite !filter_cons, filter_nil.
      rewrite !elem_of_cons, elem_of_nil in Hin.
      repeat case_decide; subst; simpl; try (split; [apply NoDup_singleton | lia]).
      * destruct Hin as [?|[?|[]]]; congruence.
      * congruence.
    + split; [|simpl; lia]. apply NoDup_cons. split; [|apply NoDup_singleton].
      rewrite list_elem_of_singleton. intros ->. apply Hin. right. now left.
Qed.

(** The theorem at the default selection. *)
Lemma toggleLength_keeps_one_or_two_witness :
  (NoDup [Settings.MEDIUM] /\ (1 <= length [Settings.MEDIUM] <= 2)%nat) /\
  NoDup (Settings.toggleLength Settings.LONG [Settings.MEDIUM]) /\
  (1 <= length (Settings.toggleLength Settings.LONG [Settings.MEDIUM]) <= 2)%nat.
Proof.
  assert (H : NoDup [Settings.MEDIUM] /\ (1 <= length [Settings.MEDIUM] <= 2)%nat)
    by (split; [apply NoDup_singleton | simpl; lia]).
  split; [exact H|].
  exact (toggleLength_keeps_one_or_two Settings.LONG [Settings.MEDIUM] (proj1 H) (proj2 H)).
Defined.

(** X17.  What a toggle does to the toggled length: afterwards it is
    selected exactly when it was not selected before, or when the
    selection had a single entry, which is kept.  A toggle selects nothing
    but the toggled length. *)
Theorem toggleLength_flips (l : Settings.Length) (current : list Settings.Length) :
  (In l (Settings.toggleLength l current)
   <-> ~ In l current \/ length current = 1%nat) /\
  (forall x, In x (Settings.toggleLength l current) -> x = l \/ In x current).
Proof.
  unfold Settings.toggleLength. rewrite <- !list_elem_of_In.
  case_bool_decide as Hin.
  - destruct (Nat.eqb_spec (length current) 1) as [E|E].
    + split; [tauto|]. intros x Hx. now right.
    + split.
      * rewrite list_elem_of_filter. split; [tauto|]. intros [?|?]; tauto.
      * intros x Hx. right. apply list_elem_of_In in Hx.
        apply list_elem_of_filter in Hx as [_ Hx]. now apply list_elem_of_In.
  - split.
    + split; [now left|]. intros _.
      destruct (2 <=? length current)%nat; apply elem_of_app; right; now left.
    + intros x Hx. apply list_elem_of_In in Hx.
      destruct (2 <=? length current)%nat; apply elem_of_app in Hx as [Hx|Hx].
      * right. apply list_elem_of_In. exact (subseteq_drop 1 current x Hx).
      * apply list_elem_of_singleton in Hx. now left.
      * right. now apply list_elem_of_In.
      * apply list_elem_of_singleton in Hx. now left.
Qed.

(** X18.  A keyword added from the suggestions is read back as the last
    typed keyword: for a suggestion that is tight and holds no comma, the
    typed keywords after [addKeyword], split at commas and trimmed, are
    those before followed by the suggestion; and the suggestion is taken
    off the suggestions, which keep every other entry. *)
Theorem addKeyword_round_trip (kw : string) (st : Settings.Keywords) :
  tight kw = true -> every (isNot ",") kw = true ->
  Settings.currentList (Settings.keywords (Settings.addKeyword kw st))
    = (Settings.currentList (Settings.keywords st) ++ [kw])%list /\
  ~ In kw (Settings.suggestedKeywords (Settings.addKeyword kw st)) /\
  (forall k, k <> kw ->
     (In k (Settings.suggestedKeywords (Settings.addKeyword kw st))
      <-> In k (Settings.suggestedKeywords st))).
Proof.
  intros Ht Hc. split; [|split].
  - unfold Settings.addKeyword. cbn [Settings.keywords].
    destruct (Js.truthy (Settings.keywords st)) eqn:Ek.
    + set (ks := Settings.keywords st) in *.
      unfold Settings.currentList at 2. rewrite Ek.
      unfold Settings.currentList.
      assert (Etr : Js.truthy (ks ++ ", " ++ kw) = true) by (now destruct ks).
      rewrite Etr.
      change (ks ++ ", " ++ kw) with (ks ++ String "," (String " " kw)).
      rewrite split_app, (split_none "," (String " " kw)).
      * rewrite List.map_app, List.filter_app. f_equal.
        cbn [List.map List.filter].
        pose proof (trim_padded " " "" kw eq_refl eq_refl Ht) as E.
        rewrite app_empty_r in E.
        change (" " ++ kw) with (String " " kw) in E. rewrite E.
        assert (Hl : (0 <? Js.len kw) = true).
        { apply Z.ltb_lt. unfold Js.len. apply tight_nonempty in Ht.
          destruct kw; [discriminate | simpl; lia]. }
        now rewrite Hl.
      * cbn [every]. now rewrite Hc.
    + assert (E0 : Settings.keywords st = "")
        by (destruct (Settings.keywords st); [reflexivity | discriminate]).
      rewrite E0. now rewrite (currentList_one kw Ht Hc).
  - unfold Settings.addKeyword. cbn [Settings.suggestedKeywords].
    rewrite filter_In. intros [_ H]. now rewrite String.eqb_refl in H.
  - intros k Hk. unfold Settings.addKeyword. cbn [Settings.suggestedKeywords].
    rewrite filter_In. apply String.eqb_neq in Hk. rewrite Hk. tauto.
Qed.

(** The theorem at a second keyword. *)
Lemma addKeyword_round_trip_witness :
  (tight "smart home" = true /\ every (isNot ",") "smart home" = true) /\
  Settings.currentList
    (Settings.keywords
       (Settings.addKeyword "smart home"
          (Settings.mkKeywords "ai, robots" ["smart home"; "iot"])))
  = ["ai"; "robots"; "smart home"].
Proof.
  split; [split; reflexivity|].
  exact (proj1 (addKeyword_round_trip "smart home"
                  (Settings.mkKeywords "ai, robots" ["smart home"; "iot"])
                  eq_refl eq_refl)).
Defined.

(** X19.  The keywords that are copied: the list holds no keyword twice,
    and it holds exactly the typed keywords and the suggestions.  Nothing
    is copied when nothing is typed and nothing is suggested. *)
Theorem copied_keywords_are_unique (st : Settings.Keywords) :
  NoDup (Settings.allKeywords st) /\
  (forall k, In k (Settings.allKeywords st)
             <-> In k (Settings.currentList (Settings.keywords st))
                 \/ In k (Settings.suggestedKeywords st)) /\
  (Settings.keywords st = "" -> Settings.suggestedKeywords st = [] ->
   Settings.handleCopyKeywords st = None).
Proof.
  split; [apply uniqueFrom_NoDup|]. split.
  - intros k. unfold Settings.allKeywords.
    rewrite uniqueFrom_In, in_app_iff. simpl. tauto.
  - intros Hk Hs. unfold Settings.handleCopyKeywords, Settings.allKeywords.
    now rewrite Hk, Hs.
Qed.

(** ** Categories *)

Section CategoryFacts.

Import Categories.

Lemma elem_of_map {A B} (f : A -> B) (l : list A) (y : B) :
  y ∈ List.map f l <-> exists x, y = f x /\ In x l.
Proof.
  rewrite list_elem_of_In, in_map_iff. split; intros (x & H1 & H2); exists x; auto.
Qed.

(** Names stay distinct under a renaming that creates no collision. *)
Lemma NoDup_map_compat {A B} (f g : A -> B) (l : list A) :
  NoDup (List.map g l) ->
  (forall x y, In x l -> In y l -> f x = f y -> g x = g y) ->
  NoDup (List.map f l).
Proof.
  induction l as [|a l IH]; intros Hnd Hc; simpl; [constructor|].
  simpl in Hnd. apply NoDup_cons in Hnd as [Ha Hnd]. apply NoDup_cons. split.
  - rewrite elem_of_map. intros (x & E & Hx). apply Ha.
    rewrite elem_of_map. exists x. split; [|exact Hx].
    apply Hc; [now left | now right | exact E].
  - apply IH; [exact Hnd|]. intros x y Hx Hy. apply Hc; now right.
Qed.

Lemma NoDup_map_filter {A B} (f : A -> B) (p : A -> bool) (l : list A) :
  NoDup (List.map f l) -> NoDup (List.map f (List.filter p l)).
Proof.
  induction l as [|a l IH]; simpl; intros Hnd; [constructor|].
  apply NoDup_cons in Hnd as [Ha Hnd]. destruct (p a); simpl; [|now apply IH].
  apply NoDup_cons. split; [|now apply IH].
  rewrite elem_of_map. intros (x & E & Hx). apply Ha.
  rewrite elem_of_map. exists x. split; [exact E|].
  now apply filter_In in Hx as [Hx _].
Qed.

Lemma NoDup_map_app {A B} (f : A -> B) (l k : list A) :
  NoDup (List.map f (l ++ k)) <->
  NoDup (List.map f l) /\ (forall x y, In x l -> In y k -> f x <> f y) /\
  NoDup (List.map f k).
Proof.
  rewrite List.map_app, NoDup_app. split.
  - intros (H1 & H2 & H3). split; [exact H1|]. split; [|exact H3].
    intros x y Hx Hy E. apply (H2 (f x)).
    + apply elem_of_map. now exists x.
    + apply elem_of_map. now exists y.
  - intros (H1 & H2 & H3). split; [exact H1|]. split; [|exact H3].
    intros z Hz Hz'. apply elem_of_map in Hz as (x & -> & Hx).
    apply elem_of_map in Hz' as (y & E & Hy). exact (H2 x y Hx Hy E).
Qed.

Lemma distinctb_NoDup (l : list string) : distinctb l = true -> NoDup l.
Proof.
  induction l as [|x l IH]; simpl; intros H; [constructor|].
  apply andb_true_iff in H as [Hx Hl]. apply negb_true_iff in Hx.
  apply NoDup_cons. split; [|now apply IH].
  rewrite list_elem_of_In. intros Hin.
  assert (Ht : existsb (String.eqb x) l = true).
  { apply existsb_exists. exists x. split; [exact Hin | apply String.eqb_refl]. }
  congruence.
Qed.

Lemma sameIgnoringCase_spec (a b : string) :
  sameIgnoringCase a b = true <-> Js.toLowerCase a = Js.toLowerCase b.
Proof. unfold sameIgnoringCase. apply String.eqb_eq. Qed.

Lemma TECH_builtin : In TECH builtin.
Proof. right. now left. Qed.

End CategoryFacts.

(** X20.  Adding a category keeps the category names distinct up to
    letter case and the selected category among the categories.  A name
    that is blank, or that equals an existing category when letter case
    is ignored, changes nothing.  Every other name, trimmed, is added as
    the last custom category and selected, and the input is cleared;
    the category being edited and the saved articles are not touched. *)
Theorem handleSaveCategory_keeps_names_distinct (st : Categories.State) :
  distinctIgnoringCase (Categories.allCategories st) ->
  In (Categories.configType st) (Categories.allCategories st) ->
  let st' := Categories.handleSaveCategory st in
  let name := Js.trim (Categories.newCategoryName st) in
  distinctIgnoringCase (Categories.allCategories st') /\
  In (Categories.configType st') (Categories.allCategories st') /\
  (name = "" -> st' = st) /\
  (forall c, In c (Categories.allCategories st) ->
             Js.toLowerCase c = Js.toLowerCase name -> st' = st) /\
  (name <> "" ->
   (forall c, In c (Categories.allCategories st) ->
              Js.toLowerCase c <> Js.toLowerCase name) ->
   Categories.customCategories st' = (Categories.customCategories st ++ [name])%list /\
   Categories.configType st' = name /\
   Categories.newCategoryName st' = "" /\
   Categories.editingCategory st' = Categories.editingCategory st /\
   Categories.editCategoryInputValue st' = Categories.editCategoryInputValue st /\
   Categories.savedArticles st' = Categories.savedArticles st).
Proof.
  intros Hd Hin. cbv zeta. unfold Categories.handleSaveCategory.
  set (name := Js.trim (Categories.newCategoryName st)).
  destruct (Js.truthy name) eqn:Et; cbn [negb].
  - assert (Hname : name <> "") by now apply truthy_nonempty.
    destruct (existsb (fun c => Categories.sameIgnoringCase c name)
                      (Categories.allCategories st)) eqn:Ex.
    + split; [exact Hd|]. split; [exact Hin|]. split; [reflexivity|].
      split; [reflexivity|]. intros _ Hfree. exfalso.
      apply existsb_exists in Ex as (c & Hc & E).
      apply sameIgnoringCase_spec in E. exact (Hfree c Hc E).
    + assert (Hfresh : forall c, In c (Categories.allCategories st) ->
                         Js.toLowerCase c <> Js.toLowerCase name).
      { intros c Hc E. apply sameIgnoringCase_spec in E.
        assert (Ht : existsb (fun c => Categories.sameIgnoringCase c name)
                             (Categories.allCategories st) = true)
          by (apply existsb_exists; now exists c).
        congruence. }
      split; [|split; [|split; [|split]]].
      * unfold distinctIgnoringCase, Categories.allCategories in *.
        cbn [Categories.customCategories]. rewrite app_assoc.
        apply NoDup_map_app. split; [exact Hd|]. split; [|apply NoDup_singleton].
        intros x y Hx [<-|[]]. exact (Hfresh x Hx).
      * unfold Categories.allCategories. cbn [Categories.customCategories
          Categories.configType]. rewrite app_assoc. apply in_or_app. right. now left.
      * intros E. contradiction.
      * intros c Hc E. exfalso. exact (Hfresh c Hc E).
      * intros _ _. repeat split.
  - assert (Hname : name = "") by (destruct name; [reflexivity | discriminate]).
    split; [exact Hd|]. split; [exact Hin|]. split; [reflexivity|].
    split; [reflexivity|]. intros Hne. contradiction.
Qed.

(** The theorem at a first custom category. *)
Lemma handleSaveCategory_keeps_names_distinct_witness :
  (distinctIgnoringCase
     (Categories.allCategories (Categories.mkState [] Categories.TECH " Crypto " None "" [])) /\
   In Categories.TECH
      (Categories.allCategories (Categories.mkState [] Categories.TECH " Crypto " None "" []))) /\
  distinctIgnoringCase
    (Categories.allCategories
       (Categories.handleSaveCategory
          (Categories.mkState [] Categories.TECH " Crypto " None "" []))) /\
  Categories.handleSaveCategory (Categories.mkState [] Categories.TECH " Crypto " None "" [])
  = Categories.mkState ["Crypto"] "Crypto" "" None "" [].
Proof.
  assert (H : distinctIgnoringCase
                (Categories.allCategories
                   (Categories.mkState [] Categories.TECH " Crypto " None "" [])) /\
              In Categories.TECH
                 (Categories.allCategories
                    (Categories.mkState [] Categories.TECH " Crypto " None "" []))).
  { split; [|right; now left].
    unfold distinctIgnoringCase. apply distinctb_NoDup. reflexivity. }
  split; [exact H|]. split; [|reflexivity].
  exact (proj1 (handleSaveCategory_keeps_names_distinct
                  (Categories.mkState [] Categories.TECH " Crypto " None "" [])
                  (proj1 H) (proj2 H))).
Defined.

(** X21.  Renaming a custom category, for the category being edited.
    The category names stay distinct up to letter case, the selected
    category stays among the categories, and the number of custom
    categories is unchanged.  A blank name changes nothing, and so does
    a new name that another category has when letter case is ignored.
    The old name given again only closes the editing.  Every other name
    takes the place of the old one everywhere: it is a custom category
    and the old name is none, the other custom categories are kept, no
    saved article keeps the old category while the articles of other
    categories are kept as they are, a selection of the old category
    follows the rename, and the editing is closed. *)
Theorem saveEditedCategory_renames_everywhere (st : Categories.State) (oldName : string) :
  distinctIgnoringCase (Categories.allCategories st) ->
  Categories.editingCategory st = Some oldName ->
  In oldName (Categories.customCategories st) ->
  In (Categories.configType st) (Categories.allCategories st) ->
  let st' := Categories.saveEditedCategory st in
  let newName := Js.trim (Categories.editCategoryInputValue st) in
  distinctIgnoringCase (Categories.allCategories st') /\
  In (Categories.configType st') (Categories.allCategories st') /\
  length (Categories.customCategories st') = length (Categories.customCategories st) /\
  (oldName = "" \/ newName = "" -> st' = st) /\
  (newName <> oldName ->
   (exists c, In c (Categories.allCategories st) /\ c <> oldName /\
              Js.toLowerCase c = Js.toLowerCase newName) ->
   st' = st) /\
  (oldName <> "" -> newName = oldName ->
   Categories.customCategories st' = Categories.customCategories st /\
   Categories.configType st' = Categories.configType st /\
   Categories.savedArticles st' = Categories.savedArticles st /\
   Categories.newCategoryName st' = Categories.newCategoryName st /\
   Categories.editingCategory st' = None /\
   Categories.editCategoryInputValue st' = "") /\
  (oldName <> "" -> newName <> "" -> newName <> oldName ->
   (forall c, In c (Categories.allCategories st) -> c <> oldName ->
              Js.toLowerCase c <> Js.toLowerCase newName) ->
   In newName (Categories.customCategories st') /\
   ~ In oldName (Categories.customCategories st') /\
   (forall c, c <> oldName -> In c (Categories.customCategories st) ->
              In c (Categories.customCategories st')) /\
   Forall (fun a => History.type_ a <> oldName) (Categories.savedArticles st') /\
   length (Categories.savedArticles st') = length (Categories.savedArticles st) /\
   (forall a, In a (Categories.savedArticles st) -> History.type_ a <> oldName ->
              In a (Categories.savedArticles st')) /\
   (Categories.configType st = oldName -> Categories.configType st' = newName) /\
   (Categories.configType st <> oldName ->
    Categories.configType st' = Categories.configType st) /\
   Categories.newCategoryName st' = Categories.newCategoryName st /\
   Categories.editingCategory st' = None /\
   Categories.editCategoryInputValue st' = "").
Proof.
  intros Hd He Hold Hin. cbv zeta. unfold Categories.saveEditedCategory. rewrite He.
  set (newName := Js.trim (Categories.editCategoryInputValue st)).
  destruct (Js.truthy oldName) eqn:To; cbn [negb orb].
  2:{ assert (Ho : oldName = "") by (destruct oldName; [reflexivity | discriminate]).
      split; [exact Hd|]. split; [exact Hin|]. split; [reflexivity|].
      split; [reflexivity|]. split; [reflexivity|].
      split; intros; contradiction. }
  destruct (Js.truthy newName) eqn:Tn; cbn [negb].
  2:{ assert (Hn : newName = "") by (destruct newName; [reflexivity | discriminate]).
      split; [exact Hd|]. split; [exact Hin|]. split; [reflexivity|].
      split; [reflexivity|]. split; [reflexivity|].
      split; [|intros; contradiction].
      intros Ho E. apply truthy_nonempty in To. congruence. }
  assert (Ho : oldName <> "") by now apply truthy_nonempty.
  assert (Hn : newName <> "") by now apply truthy_nonempty.
  destruct (String.eqb_spec oldName newName) as [Esame|Ediff].
  { split; [exact Hd|]. split; [exact Hin|]. split; [reflexivity|].
    split; [intros [?|?]; contradiction|].
    split; [intros Hne; congruence|].
    split; [intros _ _; repeat split|].
    intros _ _ Hne. congruence. }
  set (repl := fun c : string => if String.eqb c oldName then newName else c).
  destruct (existsb (fun c => negb (String.eqb c oldName) && Categories.sameIgnoringCase c newName)
                    (Categories.allCategories st)) eqn:Ex.
  { split; [exact Hd|]. split; [exact Hin|]. split; [reflexivity|].
    split; [reflexivity|]. split; [reflexivity|].
    split; [intros _ E; congruence|].
    intros _ _ _ Hfree. exfalso.
    apply existsb_exists in Ex as (c & Hc & E).
    apply andb_true_iff in E as [Hne E]. apply negb_true_iff, String.eqb_neq in Hne.
    apply sameIgnoringCase_spec in E. exact (Hfree c Hc Hne E). }
  assert (Hfresh : forall c, In c (Categories.allCategories st) -> c <> oldName ->
                     Js.toLowerCase c <> Js.toLowerCase newName).
  { intros c Hc Hne E. apply sameIgnoringCase_spec in E.
    assert (Ht : existsb (fun c => negb (String.eqb c oldName)
                                   && Categories.sameIgnoringCase c newName)
                         (Categories.allCategories st) = true).
    { apply existsb_exists. exists c. split; [exact Hc|].
      apply String.eqb_neq in Hne. now rewrite Hne, E. }
    congruence. }
  assert (Hnotb : ~ In oldName Categories.builtin).
  { intros Hb. unfold distinctIgnoringCase, Categories.allCategories in Hd.
    apply NoDup_map_app in Hd as (_ & Hx & _). now apply (Hx oldName oldName). }
  assert (Hrepl_old : repl oldName = newName)
    by (unfold repl; now rewrite String.eqb_refl).
  assert (Hrepl_other : forall c, c <> oldName -> repl c = c).
  { intros c Hc. unfold repl. apply String.eqb_neq in Hc. now rewrite Hc. }
  assert (Hall : (Categories.builtin ++ List.map repl (Categories.customCategories st))%list
                 = List.map repl (Categories.allCategories st)).
  { unfold Categories.allCategories. rewrite List.map_app. f_equal.
    rewrite <- (List.map_id Categories.builtin) at 1. apply List.map_ext_in.
    intros c Hc. symmetry. apply Hrepl_other. intros ->. contradiction. }
  cbn [Categories.customCategories Categories.configType Categories.savedArticles
       Categories.editingCategory Categories.newCategoryName
       Categories.editCategoryInputValue].
  fold repl.
  split; [|split; [|split; [|split; [|split; [|split]]]]].
  - unfold distinctIgnoringCase, Categories.allCategories at 1.
    cbn [Categories.customCategories]. rewrite Hall, List.map_map.
    apply (NoDup_map_compat _ Js.toLowerCase); [exact Hd|].
    intros x y Hx Hy E.
    destruct (String.eqb_spec x oldName) as [->|Nx];
      destruct (String.eqb_spec y oldName) as [->|Ny]; trivial.
    + rewrite Hrepl_old, (Hrepl_other y Ny) in E.
      exfalso. now apply (Hfresh y Hy Ny).
    + rewrite Hrepl_old, (Hrepl_other x Nx) in E.
      exfalso. now apply (Hfresh x Hx Nx).
    + now rewrite (Hrepl_other x Nx), (Hrepl_other y Ny) in E.
  - unfold Categories.allCategories at 1. cbn [Categories.customCategories].
    rewrite Hall.
    destruct (String.eqb_spec (Categories.configType st) oldName) as [Et|Et].
    + rewrite <- Hrepl_old. apply in_map.
      unfold Categories.allCategories. apply in_or_app. now right.
    + rewrite <- (Hrepl_other _ Et). now apply in_map.
  - apply length_map.
  - intros [?|?]; contradiction.
  - intros _ (c & Hc & Hne & E). exfalso. exact (Hfresh c Hc Hne E).
  - intros _ E. congruence.
  - intros _ _ _ _.
    split; [|split; [|split; [|split; [|split; [|split; [|split; [|split]]]]]]].
    + rewrite <- Hrepl_old. now apply in_map.
    + intros Hc. apply in_map_iff in Hc as (c & Hc & _).
      destruct (String.eqb_spec c oldName) as [->|Nc].
      * rewrite Hrepl_old in Hc. congruence.
      * rewrite (Hrepl_other c Nc) in Hc. congruence.
    + intros c Nc Hc. rewrite <- (Hrepl_other c Nc). now apply in_map.
    + apply Forall_forall. intros a Ha. apply list_elem_of_In in Ha.
      apply in_map_iff in Ha as (b & <- & _). unfold Categories.retype.
      destruct (String.eqb_spec (History.type_ b) oldName) as [E|E]; cbn; congruence.
    + apply length_map.
    + intros a Ha Na. apply in_map_iff. exists a. split; [|exact Ha].
      unfold Categories.retype. apply String.eqb_neq in Na. now rewrite Na.
    + intros ->. now rewrite String.eqb_refl.
    + intros Nt. apply String.eqb_neq in Nt. now rewrite Nt.
    + repeat split.
Qed.

(** The theorem at a rename that changes letter case only. *)
Lemma saveEditedCategory_renames_everywhere_witness :
  (distinctIgnoringCase
     (Categories.allCategories
        (Categories.mkState ["crypto"] "crypto" "" (Some "crypto") "Crypto" [])) /\
   Some "crypto" = Some "crypto" /\ In "crypto" ["crypto"] /\
   In "crypto"
      (Categories.allCategories
         (Categories.mkState ["crypto"] "crypto" "" (Some "crypto") "Crypto" []))) /\
  Categories.saveEditedCategory
    (Categories.mkState ["crypto"] "crypto" "" (Some "crypto") "Crypto" [])
  = Categories.mkState ["Crypto"] "Crypto" "" None "" [] /\
  distinctIgnoringCase
    (Categories.allCategories
       (Categories.saveEditedCategory
          (Categories.mkState ["crypto"] "crypto" "" (Some "crypto") "Crypto" []))).
Proof.
  assert (H1 : distinctIgnoringCase
                 (Categories.allCategories
                    (Categories.mkState ["crypto"] "crypto" "" (Some "crypto") "Crypto" [])))
    by (unfold distinctIgnoringCase; apply distinctb_NoDup; reflexivity).
  assert (H3 : In "crypto" ["crypto"]) by now left.
  assert (H4 : In "crypto"
                  (Categories.allCategories
                     (Categories.mkState ["crypto"] "crypto" "" (Some "crypto") "Crypto" [])))
    by (apply in_or_app; right; now left).
  split; [repeat split; assumption|]. split; [reflexivity|].
  exact (proj1 (saveEditedCategory_renames_everywhere
                  (Categories.mkState ["crypto"] "crypto" "" (Some "crypto") "Crypto" [])
                  "crypto" H1 eq_refl H3 H4)).
Defined.

(** X22.  Deleting a category.  Once confirmed, the category is no
    custom category any more and the other custom categories are kept;
    the names stay distinct up to letter case; the selected category
    stays among the categories, falling back to the technology category
    when it was the deleted one; the saved articles are not touched.
    Without the confirmation nothing changes. *)
Theorem handleDeleteCategory_keeps_selection (st : Categories.State) (cat : string) :
  distinctIgnoringCase (Categories.allCategories st) ->
  In (Categories.configType st) (Categories.allCategories st) ->
  let st' := Categories.handleDeleteCategory cat true st in
  distinctIgnoringCase (Categories.allCategories st') /\
  In (Categories.configType st') (Categories.allCategories st') /\
  ~ In cat (Categories.customCategories st') /\
  (forall c, c <> cat ->
     (In c (Categories.customCategories st') <-> In c (Categories.customCategories st))) /\
  (Categories.configType st = cat -> Categories.configType st' = Categories.TECH) /\
  Categories.savedArticles st' = Categories.savedArticles st /\
  Categories.handleDeleteCategory cat false st = st.
Proof.
  intros Hd Hin. cbv zeta. unfold Categories.handleDeleteCategory.
  cbn [Categories.customCategories Categories.configType Categories.savedArticles].
  split; [|split; [|split; [|split; [|split; [|split]]]]].
  - unfold distinctIgnoringCase, Categories.allCategories in *.
    cbn [Categories.customCategories].
    apply NoDup_map_app in Hd as (Hb & Hx & Hc). apply NoDup_map_app.
    split; [exact Hb|]. split; [|now apply NoDup_map_filter].
    intros x y Hx' Hy. apply filter_In in Hy as [Hy _]. now apply Hx.
  - unfold Categories.allCategories in *. cbn [Categories.customCategories].
    destruct (String.eqb_spec (Categories.configType st) cat) as [E|E].
    + apply in_or_app. left. apply TECH_builtin.
    + apply in_app_or in Hin as [Hb|Hc]; apply in_or_app; [now left|right].
      apply filter_In. split; [exact Hc|]. apply String.eqb_neq in E. now rewrite E.
  - rewrite filter_In. intros [_ H]. now rewrite String.eqb_refl in H.
  - intros c Hc. rewrite filter_In. apply String.eqb_neq in Hc. rewrite Hc. tauto.
  - intros ->. now rewrite String.eqb_refl.
  - reflexivity.
  - reflexivity.
Qed.

(** The theorem at the deletion of the selected category. *)
Lemma handleDeleteCategory_keeps_selection_witness :
  (distinctIgnoringCase
     (Categories.allCategories (Categories.mkState ["Crypto"; "Garden"] "Crypto" "" None "" [])) /\
   In "Crypto"
      (Categories.allCategories (Categories.mkState ["Crypto"; "Garden"] "Crypto" "" None "" []))) /\
  Categories.handleDeleteCategory "Crypto" true
    (Categories.mkState ["Crypto"; "Garden"] "Crypto" "" None "" [])
  = Categories.mkState ["Garden"] Categories.TECH "" None "" [] /\
  In Categories.TECH
     (Categories.allCategories
        (Categories.handleDeleteCategory "Crypto" true
           (Categories.mkState ["Crypto"; "Garden"] "Crypto" "" None "" []))).
Proof.
  assert (H1 : distinctIgnoringCase
                 (Categories.allCategories
                    (Categories.mkState ["Crypto"; "Garden"] "Crypto" "" None "" [])))
    by (unfold distinctIgnoringCase; apply distinctb_NoDup; reflexivity).
  assert (H2 : In "Crypto"
                  (Categories.allCategories
                     (Categories.mkState ["Crypto"; "Garden"] "Crypto" "" None "" [])))
    by (apply in_or_app; right; now left).
  split; [split; assumption|]. split; [reflexivity|].
  exact (proj1 (proj2 (handleDeleteCategory_keeps_selection
                         (Categories.mkState ["Crypto"; "Garden"] "Crypto" "" None "" [])
                         "Crypto" H1 H2))).
Defined.

(** ** File names *)

Section FileNames.

Lemma underscores_noSpace (s : string) :
  forall inRun, every noSpace (Files.underscores inRun s) = true.
Proof.
  induction s as [|c s IH]; intros inRun; [reflexivity|].
  cbn [Files.underscores]. destruct (Js.is_ws c) eqn:E.
  - destruct inRun; [apply IH|]. cbn [every]. now rewrite IH.
  - cbn [every]. unfold noSpace at 1. now rewrite E, IH.
Qed.

Lemma underscores_same (s : string) :
  every noSpace s = true -> forall inRun, Files.underscores inRun s = s.
Proof.
  induction s as [|c s IH]; intros H inRun; [reflexivity|].
  cbn [every] in H. apply andb_true_iff in H as [Hc Hs].
  unfold noSpace in Hc. apply negb_true_iff in Hc.
  cbn [Files.underscores]. now rewrite Hc, (IH Hs).
Qed.

Lemma underscores_truthy (s : string) :
  Js.truthy (Files.underscores false s) = Js.truthy s.
Proof. destruct s as [|c s]; [reflexivity|]. simpl. now destruct (Js.is_ws c). Qed.

End FileNames.

(** X23.  The name of an exported file.  For every topic and every
    extension without white space, the name holds no white space and is
    longer than the extension; an empty topic gives the stem [article]; a
    topic that is not empty and has no white space is kept as it is. *)
Theorem downloadName_is_usable (topic extension : string) :
  every noSpace extension = true ->
  every noSpace (Files.downloadName topic extension) = true /\
  (String.length extension < String.length (Files.downloadName topic extension))%nat /\
  Files.downloadName "" extension = "article" ++ extension /\
  (topic <> "" -> every noSpace topic = true ->
   Files.downloadName topic extension = topic ++ extension).
Proof.
  intros He. unfold Files.downloadName.
  split; [|split; [|split]].
  - destruct (Js.truthy (Files.underscores false topic)); rewrite every_app, He.
    + now rewrite underscores_noSpace.
    + reflexivity.
  - destruct (Js.truthy (Files.underscores false topic)) eqn:E;
      rewrite str_length_app.
    + destruct (Files.underscores false topic); [discriminate | simpl; lia].
    + simpl. lia.
  - reflexivity.
  - intros Hne Hns. rewrite (underscores_same topic Hns).
    apply truthy_nonempty in Hne. now rewrite Hne.
Qed.

(** The theorem at a topic of three words. *)
Lemma downloadName_is_usable_witness :
  every noSpace ".md" = true /\
  Files.downloadName "My  first post" ".md" = "My_first_post.md" /\
  every noSpace (Files.downloadName "My  first post" ".md") = true.
Proof.
  split; [reflexivity|]. split; [reflexivity|].
  exact (proj1 (downloadName_is_usable "My  first post" ".md" eq_refl)).
Defined.

(** ** Deleting from the history *)

(** X24.  Saving an article and deleting it again gives the history back:
    when no saved article has the new id, the history after the save and
    the deletion of the saved article is the history before, in the same
    order.  Deleting removes every article that has the id of the deleted
    one and keeps all others. *)
Theorem save_then_delete_restores_history
    (w : History.Workspace) (newId : string) (now : Z) :
  Forall (fun a => History.id a <> newId) (History.savedArticles w) ->
  exists article,
    History.savedArticles (History.handleSaveArticle newId now w)
      = article :: History.savedArticles w /\
    History.savedArticles
      (History.deleteSaved article (History.handleSaveArticle newId now w))
      = History.savedArticles w /\
    (forall later a,
       In a (History.savedArticles (History.deleteSaved article later))
       <-> In a (History.savedArticles later) /\ History.id a <> newId).
Proof.
  intros Hfresh. eexists. split; [reflexivity|]. split.
  - cbn [History.deleteSaved History.handleSaveArticle History.savedArticles
         History.id List.filter].
    rewrite String.eqb_refl. cbn [negb].
    induction (History.savedArticles w) as [|a l IH]; [reflexivity|].
    apply Forall_cons in Hfresh as [Ha Hl]. cbn [List.filter].
    apply String.eqb_neq in Ha. rewrite Ha. cbn [negb]. now rewrite (IH Hl).
  - intros later a. cbn [History.deleteSaved History.savedArticles History.id].
    rewrite filter_In, negb_true_iff, String.eqb_neq. tauto.
Qed.

(** The theorem at a history of one article. *)
Lemma save_then_delete_restores_history_witness :
  Forall (fun a => History.id a <> "n2")
         [History.mkSavedArticle "n1" "t" "c" 1 "Travel" None] /\
  exists article,
    History.savedArticles
      (History.handleSaveArticle "n2" 2
         (History.mkWorkspace "topic" "Travel" "text" Images.initial
            [History.mkSavedArticle "n1" "t" "c" 1 "Travel" None]))
      = article :: [History.mkSavedArticle "n1" "t" "c" 1 "Travel" None] /\
    History.savedArticles
      (History.deleteSaved article
         (History.handleSaveArticle "n2" 2
            (History.mkWorkspace "topic" "Travel" "text" Images.initial
               [History.mkSavedArticle "n1" "t" "c" 1 "Travel" None])))
      = [History.mkSavedArticle "n1" "t" "c" 1 "Travel" None] /\
    (forall later a,
       In a (History.savedArticles (History.deleteSaved article later))
       <-> In a (History.savedArticles later) /\ History.id a <> "n2").
Proof.
  assert (H : Forall (fun a => History.id a <> "n2")
                     [History.mkSavedArticle "n1" "t" "c" 1 "Travel" None])
    by (repeat constructor; discriminate).
  split; [exact H|].
  exact (save_then_delete_restores_history
           (History.mkWorkspace "topic" "Travel" "text" Images.initial
              [History.mkSavedArticle "n1" "t" "c" 1 "Travel" None]) "n2" 2 H).
Defined.
